(** * BookDebugger text-analysis backend: a shallow embedding of
    [backend/api_server.py] and the properties of its result cache,
    lexical statistics and neighbour index.

    Conventions of the embedding.
    - Python [str] is a Rocq [string] holding the UTF-8 encoding of the
      text: [len] counts characters and [strip] and [\s] know the Unicode
      white space; case folding, [isalpha] and [repr] are those of ASCII
      text.
    - Python [float] is an exact rational [Q]: [time.time()], the word
      vectors and the L2 distances are computed without rounding error.
    - A Python [dict] whose iteration order matters ([Counter], the options
      mapping, [word_dictionary], [words_neighbors]) is an association list
      in insertion order; the process-wide [cache] is a [gmap].
    - A Python exception is the left injection of a sum type.
    - NLTK, gensim and faiss are outside the repository: the tokenizers,
      the stopword list and the embedding table are parameters of the
      engine, and faiss' flat L2 index is modelled from its contract. *)

From Stdlib Require Import ZArith QArith Qround Lqa String Ascii List DecimalString.
From Stdlib Require Import Sorted Permutation.
From stdpp Require Import gmap strings list fin_maps.

Local Open Scope string_scope.
Local Open Scope list_scope.
Local Open Scope Z_scope.

(** ** Python values that reach the service through JSON

    JSON numbers are the integers; objects keep the order of their keys. *)

#[warnings="-register-all"]
Inductive PyVal : Type :=
| PNone
| PBool (b : bool)
| PInt (z : Z)
| PStr (s : string)
| PList (l : list PyVal)
| PDict (d : list (string * PyVal)).

(** Exceptions raised by the code paths that are modelled. *)
Inductive PyError : Type :=
| UnboundLocalError (name : string)
| AttributeError (msg : string)
| ValueError (msg : string)
| AssertionError
| IndexError.

Definition Py (A : Type) : Type := PyError + A.

Definition ret {A} (a : A) : Py A := inr a.
Definition raise {A} (e : PyError) : Py A := inl e.
Definition bind {A B} (m : Py A) (k : A -> Py B) : Py B :=
  match m with
  | inl e => inl e
  | inr a => k a
  end.

Notation "'let!' x ':=' m 'in' k" := (bind m (fun x => k))
  (at level 10, x name, m at level 100, k at level 200).

(** Truth value of an object, as [if v:] / [not v] test it. *)
Definition truthy (v : PyVal) : bool :=
  match v with
  | PNone => false
  | PBool b => b
  | PInt z => negb (z =? 0)
  | PStr s => negb (String.eqb s EmptyString)
  | PList l => match l with [] => false | _ => true end
  | PDict d => match d with [] => false | _ => true end
  end.

(** ** [repr] and [str] *)

Module PyRepr.

Definition hex_digit (n : Z) : ascii :=
  ascii_of_N (Z.to_N (if n <? 10 then 48 + n else 87 + n)).

Definition code (c : ascii) : Z := Z.of_N (N_of_ascii c).

Fixpoint contains (c : ascii) (s : string) : bool :=
  match s with
  | EmptyString => false
  | String a r => if Ascii.eqb a c then true else contains c r
  end.

(** [repr] of one character inside a literal delimited by [q]. *)
Definition escape_char (q c : ascii) : string :=
  if Ascii.eqb c "\" then "\\"
  else if Ascii.eqb c q then String "\" (String q EmptyString)
  else if code c =? 9 then "\t"
  else if code c =? 10 then "\n"
  else if code c =? 13 then "\r"
  else if (code c <? 32) || (code c =? 127) then
    String "\" (String "x"
      (String (hex_digit (code c / 16)) (String (hex_digit (code c mod 16)) EmptyString)))
  else String c EmptyString.

Fixpoint escape (q : ascii) (s : string) : string :=
  match s with
  | EmptyString => EmptyString
  | String c r => escape_char q c +:+ escape q r
  end.

Definition dquote : ascii := ascii_of_N 34.

(** A literal is single-quoted unless it holds a single quote and no
    double quote. *)
Definition quote_of (s : string) : ascii :=
  if contains "'" s && negb (contains dquote s) then dquote else "'"%char.

Definition repr_str (s : string) : string :=
  let q := quote_of s in String q (escape q s +:+ String q EmptyString).

Definition repr_int (z : Z) : string :=
  match z with
  | Z0 => "0"
  | Zpos p => NilEmpty.string_of_uint (Pos.to_uint p)
  | Zneg p => "-" +:+ NilEmpty.string_of_uint (Pos.to_uint p)
  end.

Fixpoint repr (v : PyVal) : string :=
  match v with
  | PNone => "None"
  | PBool true => "True"
  | PBool false => "False"
  | PInt z => repr_int z
  | PStr s => repr_str s
  | PList l =>
      "[" +:+
      (fix items (l : list PyVal) : string :=
         match l with
         | [] => EmptyString
         | x :: r =>
             match r with
             | [] => repr x
             | _ :: _ => repr x +:+ ", " +:+ items r
             end
         end) l +:+ "]"
  | PDict d =>
      "{" +:+
      (fix items (d : list (string * PyVal)) : string :=
         match d with
         | [] => EmptyString
         | (k, x) :: r =>
             match r with
             | [] => repr_str k +:+ ": " +:+ repr x
             | _ :: _ => repr_str k +:+ ": " +:+ repr x +:+ ", " +:+ items r
             end
         end) d +:+ "}"
  end.

(** [str(v)]: the text itself for a string, [repr] otherwise. *)
Definition str (v : PyVal) : string :=
  match v with
  | PStr s => s
  | _ => repr v
  end.

End PyRepr.

(** ** [hashlib.sha256(...).hexdigest()] (FIPS 180-4) *)

Module SHA256.

Definition add32 (x y : Z) : Z := (x + y) mod 4294967296.
Definition rotr (n x : Z) : Z :=
  Z.lor (Z.shiftr x n) ((Z.shiftl x (32 - n)) mod 4294967296).
Definition not32 (x : Z) : Z := 4294967295 - x.

Definition Ch (x y z : Z) : Z := Z.lxor (Z.land x y) (Z.land (not32 x) z).
Definition Maj (x y z : Z) : Z :=
  Z.lxor (Z.lxor (Z.land x y) (Z.land x z)) (Z.land y z).
Definition Sigma0 (x : Z) : Z := Z.lxor (Z.lxor (rotr 2 x) (rotr 13 x)) (rotr 22 x).
Definition Sigma1 (x : Z) : Z := Z.lxor (Z.lxor (rotr 6 x) (rotr 11 x)) (rotr 25 x).
Definition sigma0 (x : Z) : Z := Z.lxor (Z.lxor (rotr 7 x) (rotr 18 x)) (Z.shiftr x 3).
Definition sigma1 (x : Z) : Z := Z.lxor (Z.lxor (rotr 17 x) (rotr 19 x)) (Z.shiftr x 10).

(** The round constants are the first 32 bits of the fractional parts of
    the cube roots of the first 64 primes, and the initial hash value those
    of the square roots of the first 8 primes. *)
Definition primes : list Z :=
  [2; 3; 5; 7; 11; 13; 17; 19; 23; 29; 31; 37; 41; 43; 47; 53; 59; 61; 67;
   71; 73; 79; 83; 89; 97; 101; 103; 107; 109; 113; 127; 131; 137; 139; 149;
   151; 157; 163; 167; 173; 179; 181; 191; 193; 197; 199; 211; 223; 227;
   229; 233; 239; 241; 251; 257; 263; 269; 271; 277; 281; 283; 293; 307;
   311].

(** Integer cube root of [n], found bit by bit below [2 ^ bits]. *)
Fixpoint cbrt_bits (bits : nat) (n r : Z) : Z :=
  match bits with
  | O => r
  | S b =>
      let c := r + 2 ^ Z.of_nat b in
      cbrt_bits b n (if c * c * c <=? n then c else r)
  end.

Definition frac_cbrt32 (p : Z) : Z := cbrt_bits 36 (p * 2 ^ 96) 0 mod 4294967296.
Definition frac_sqrt32 (p : Z) : Z := Z.sqrt (p * 2 ^ 64) mod 4294967296.

Definition K : list Z := Eval vm_compute in map frac_cbrt32 primes.
Definition H0 : list Z := Eval vm_compute in map frac_sqrt32 (firstn 8 primes).

(** Message padding: a one bit, zero bytes up to 56 mod 64, then the bit
    length as a 64-bit big-endian number. *)
Definition be_bytes (width : nat) (n : Z) : list Z :=
  map (fun i => (Z.shiftr n (8 * Z.of_nat i)) mod 256) (rev (seq 0 width)).

Definition pad (msg : list Z) : list Z :=
  let len := Z.of_nat (length msg) in
  let zeros := Z.to_nat ((55 - len) mod 64) in
  msg ++ [128] ++ repeat 0 zeros ++ be_bytes 8 (8 * len).

Fixpoint words_of (fuel : nat) (bs : list Z) : list Z :=
  match fuel with
  | O => []
  | S fuel' =>
      match bs with
      | b0 :: b1 :: b2 :: b3 :: r =>
          (((b0 * 256 + b1) * 256 + b2) * 256 + b3) :: words_of fuel' r
      | _ => []
      end
  end.

(** The message schedule, most recent word first. *)
Fixpoint schedule (n : nat) (w : list Z) : list Z :=
  match n with
  | O => w
  | S n' =>
      let x := add32 (add32 (sigma1 (nth 1 w 0)) (nth 6 w 0))
                     (add32 (sigma0 (nth 14 w 0)) (nth 15 w 0)) in
      schedule n' (x :: w)
  end.

Definition round (st : list Z) (kw : Z * Z) : list Z :=
  match st with
  | [a; b; c; d; e; f; g; h] =>
      let t1 := add32 (add32 (add32 h (Sigma1 e)) (add32 (Ch e f g) (fst kw))) (snd kw) in
      let t2 := add32 (Sigma0 a) (Maj a b c) in
      [add32 t1 t2; a; b; c; add32 d t1; e; f; g]
  | _ => st
  end.

Definition compress (h : list Z) (block : list Z) : list Z :=
  let w := rev (schedule 48 (rev block)) in
  let st := fold_left round (combine K w) h in
  map (fun p => add32 (fst p) (snd p)) (combine h st).

Fixpoint blocks (fuel : nat) (ws : list Z) : list (list Z) :=
  match fuel with
  | O => []
  | S fuel' =>
      match ws with
      | [] => []
      | _ => firstn 16 ws :: blocks fuel' (skipn 16 ws)
      end
  end.

Definition digest (msg : list Z) : list Z :=
  let p := pad msg in
  let ws := words_of (length p) p in
  fold_left compress (blocks (length ws) ws) H0.

Definition hex_word (w : Z) : string :=
  string_of_list_ascii
    (map (fun i => PyRepr.hex_digit ((Z.shiftr w (4 * Z.of_nat i)) mod 16))
         (rev (seq 0 8))).

Definition encode_utf8 (s : string) : list Z :=
  map PyRepr.code (list_ascii_of_string s).

Definition hexdigest (s : string) : string :=
  String.concat EmptyString (map hex_word (digest (encode_utf8 s))).

End SHA256.

(** ** The fingerprint

    [hash_input = text + str(options if options else {})] followed by the
    SHA-256 hex digest. *)

Definition hash_input (text : string) (options : PyVal) : string :=
  text +:+ PyRepr.str (if truthy options then options else PDict []).

Definition generate_cache_key (text : string) (options : PyVal) : string :=
  SHA256.hexdigest (hash_input text options).

(** ** String helpers: [lower], [isalpha], [strip], [len] *)

Module PyStr.

Import PyRepr.

Definition lower_char (c : ascii) : ascii :=
  if (65 <=? code c) && (code c <=? 90) then ascii_of_N (Z.to_N (code c + 32)) else c.

Fixpoint lower (s : string) : string :=
  match s with
  | EmptyString => EmptyString
  | String c r => String (lower_char c) (lower r)
  end.

Definition isalpha_char (c : ascii) : bool :=
  ((65 <=? code c) && (code c <=? 90)) || ((97 <=? code c) && (code c <=? 122)).

Fixpoint all_alpha (s : string) : bool :=
  match s with
  | EmptyString => true
  | String c r => isalpha_char c && all_alpha r
  end.

(** [s.isalpha()]: non-empty and alphabetic throughout. *)
Definition isalpha (s : string) : bool :=
  match s with
  | EmptyString => false
  | _ => all_alpha s
  end.

(** White space as [str.strip] and the pattern [\s] see it: the characters
    U+0009-000D, U+001C-0020, U+0085, U+00A0, U+1680, U+2000-200A, U+2028,
    U+2029, U+202F, U+205F and U+3000. In UTF-8 those of the first two
    ranges are one byte, the next two are two bytes, the others three. *)
Definition space1 (c : ascii) : bool :=
  ((9 <=? code c) && (code c <=? 13)) || ((28 <=? code c) && (code c <=? 32)).

Definition space2 (c c1 : ascii) : bool :=
  (code c =? 194) && ((code c1 =? 133) || (code c1 =? 160)).

Definition space3 (c c1 c2 : ascii) : bool :=
  (code c =? 225) && (code c1 =? 154) && (code c2 =? 128)
  || (code c =? 226) && (code c1 =? 128)
     && ((128 <=? code c2) && (code c2 <=? 138)
         || (code c2 =? 168) || (code c2 =? 169) || (code c2 =? 175))
  || (code c =? 226) && (code c1 =? 129) && (code c2 =? 159)
  || (code c =? 227) && (code c1 =? 128) && (code c2 =? 128).

(** The text after the white-space character that [s] begins with. *)
Definition after_space (s : string) : option string :=
  match s with
  | String c r =>
      if space1 c then Some r
      else
        match r with
        | String c1 r1 =>
            if space2 c c1 then Some r1
            else
              match r1 with
              | String c2 r2 => if space3 c c1 c2 then Some r2 else None
              | EmptyString => None
              end
        | EmptyString => None
        end
  | EmptyString => None
  end.

(** A text of white-space characters only. *)
Fixpoint all_space (s : string) : bool :=
  match s with
  | EmptyString => true
  | String c r =>
      if space1 c then all_space r
      else
        match r with
        | String c1 r1 =>
            if space2 c c1 then all_space r1
            else
              match r1 with
              | String c2 r2 => space3 c c1 c2 && all_space r2
              | EmptyString => false
              end
        | EmptyString => false
        end
  end.

Fixpoint lstrip (s : string) : string :=
  match s with
  | EmptyString => EmptyString
  | String c r =>
      if space1 c then lstrip r
      else
        match r with
        | String c1 r1 =>
            if space2 c c1 then lstrip r1
            else
              match r1 with
              | String c2 r2 => if space3 c c1 c2 then lstrip r2 else s
              | EmptyString => s
              end
        | EmptyString => s
        end
  end.

(** The text up to its last character that is not white space. No
    white-space character begins with a byte that continues another
    character, so the test can be made at every byte. *)
Fixpoint rstrip (s : string) : string :=
  match s with
  | EmptyString => EmptyString
  | String c r => if all_space s then EmptyString else String c (rstrip r)
  end.

Definition strip (s : string) : string := rstrip (lstrip s).

(** [re.sub(r'\s', '', s)] *)
Fixpoint remove_spaces (s : string) : string :=
  match s with
  | EmptyString => EmptyString
  | String c r =>
      if space1 c then remove_spaces r
      else
        match r with
        | String c1 r1 =>
            if space2 c c1 then remove_spaces r1
            else
              match r1 with
              | String c2 r2 =>
                  if space3 c c1 c2 then remove_spaces r2
                  else String c (remove_spaces r)
              | EmptyString => String c (remove_spaces r)
              end
        | EmptyString => String c (remove_spaces r)
        end
  end.

(** [len(s)] counts characters: the bytes that do not continue one. *)
Definition continuation (c : ascii) : bool := (128 <=? code c) && (code c <=? 191).

Fixpoint len (s : string) : nat :=
  match s with
  | EmptyString => 0%nat
  | String c r => if continuation c then len r else S (len r)
  end.

Fixpoint mem (w : string) (l : list string) : bool :=
  match l with
  | [] => false
  | x :: r => if String.eqb x w then true else mem w r
  end.

End PyStr.

(** ** [sanitize_text]: [re.sub(r'<[^>]+>', '', text)] *)

(** The text after the first [>] of [s], if there is one. *)
Fixpoint after_gt (s : string) : option string :=
  match s with
  | EmptyString => None
  | String c r => if Ascii.eqb c ">" then Some r else after_gt r
  end.

Fixpoint sanitize_from (fuel : nat) (s : string) : string :=
  match fuel with
  | O => s
  | S fuel' =>
      match s with
      | EmptyString => EmptyString
      | String c r =>
          if Ascii.eqb c "<" then
            match r with
            | EmptyString => s
            | String c' r' =>
                if Ascii.eqb c' ">" then String c (sanitize_from fuel' r)
                else match after_gt r' with
                     | Some rest => sanitize_from fuel' rest
                     | None => String c (sanitize_from fuel' r)
                     end
            end
          else String c (sanitize_from fuel' r)
      end
  end.

Definition sanitize_text (text : string) : string :=
  sanitize_from (String.length text) text.

(** ** Numbers: [round(x, ndigits)] on exact rationals *)

Definition round_half_even (x : Q) : Z :=
  let f := Qfloor x in
  match Qcompare (x - inject_Z f)%Q (1 # 2)%Q with
  | Lt => f
  | Gt => f + 1
  | Eq => if Z.even f then f else f + 1
  end.

Definition py_round (x : Q) (ndigits : nat) : Q :=
  let scale := inject_Z (10 ^ Z.of_nat ndigits) in
  Qred (inject_Z (round_half_even (x * scale)%Q) / scale)%Q.

Definition ratio (a b : nat) : Q :=
  (inject_Z (Z.of_nat a) / inject_Z (Z.of_nat b))%Q.

(** Order tests on floats. *)
Definition py_lt (x y : Q) : bool := negb (Qle_bool y x).
Definition py_gt (x y : Q) : bool := negb (Qle_bool x y).
Definition py_ge (x y : Q) : bool := Qle_bool y x.

(** ** [collections.Counter] *)

Definition Vector : Type := list Q.

Fixpoint counter_incr (w : string) (d : list (string * nat)) : list (string * nat) :=
  match d with
  | [] => [(w, 1%nat)]
  | (k, c) :: r =>
      if String.eqb k w then (k, S c) :: r else (k, c) :: counter_incr w r
  end.

(** [Counter(words)]: keys in first-seen order. *)
Definition Counter (words : list string) : list (string * nat) :=
  fold_left (fun d w => counter_incr w d) words [].

(** Stable insertion into a list ordered by non-increasing count: the new
    item goes before the first item whose count does not exceed its own. *)
Fixpoint insert_desc (x : string * nat) (l : list (string * nat)) : list (string * nat) :=
  match l with
  | [] => [x]
  | y :: r => if (snd x <? snd y)%nat then y :: insert_desc x r else x :: y :: r
  end.

Definition sorted_desc (d : list (string * nat)) : list (string * nat) :=
  fold_right insert_desc [] d.

(** [Counter.most_common(n)]: [sorted(items, key=count, reverse=True)[:n]],
    equal counts staying in first-seen order. *)
Definition most_common (n : nat) (d : list (string * nat)) : list (string * nat) :=
  firstn n (sorted_desc d).

(** [set(l)], as the list of its distinct elements. *)
Definition py_set (l : list string) : list string :=
  fold_right (fun w acc => if PyStr.mem w acc then acc else w :: acc) [] l.

(** [d[k] = v] on an insertion-ordered dict. *)
Fixpoint dict_set {V} (k : string) (v : V) (d : list (string * V)) : list (string * V) :=
  match d with
  | [] => [(k, v)]
  | (k', v') :: r =>
      if String.eqb k' k then (k', v) :: r else (k', v') :: dict_set k v r
  end.

Fixpoint dict_get {V} (k : string) (d : list (string * V)) : option V :=
  match d with
  | [] => None
  | (k', v) :: r => if String.eqb k' k then Some v else dict_get k r
  end.

(** [l[i]] on a list: a negative index counts from the end. *)
Definition py_index {A} (l : list A) (i : Z) : Py A :=
  let n := Z.of_nat (length l) in
  let j := if i <? 0 then i + n else i in
  if (0 <=? j) && (j <? n) then
    match nth_error l (Z.to_nat j) with
    | Some x => ret x
    | None => raise IndexError
    end
  else raise IndexError.

(** Loops whose body may raise. *)
Fixpoint mapM {A B} (f : A -> Py B) (l : list A) : Py (list B) :=
  match l with
  | [] => ret []
  | x :: r =>
      let! y := f x in
      let! ys := mapM f r in
      ret (y :: ys)
  end.

Fixpoint foldM {A S} (f : S -> A -> Py S) (l : list A) (s : S) : Py S :=
  match l with
  | [] => ret s
  | x :: r =>
      let! s' := f s x in
      foldM f r s'
  end.

Fixpoint enumerate_from {A} (i : nat) (l : list A) : list (nat * A) :=
  match l with
  | [] => []
  | x :: r => (i, x) :: enumerate_from (S i) r
  end.

Definition enumerate {A} (l : list A) : list (nat * A) := enumerate_from 0 l.

Definition nth_or_raise {A} (l : list A) (i : nat) : Py A :=
  match nth_error l i with
  | Some x => ret x
  | None => raise IndexError
  end.

(** ** numpy: arrays built from lists of rows *)

Module Numpy.

Record ndarray : Type := { shape : list nat; rows : list Vector }.

(** [np.array(l)]: an empty list is one-dimensional of shape [(0,)]; rows
    of one length [d] give shape [(len(l), d)]; ragged rows are refused. *)
Definition array (l : list Vector) : Py ndarray :=
  match l with
  | [] => ret {| shape := [0%nat]; rows := [] |}
  | r :: rs =>
      if forallb (fun x => Nat.eqb (length x) (length r)) rs
      then ret {| shape := [length l; length r]; rows := l |}
      else raise (ValueError "inhomogeneous shape")
  end.

Fixpoint vec_add (x y : Vector) : Vector :=
  match x, y with
  | a :: x', b :: y' => Qred (a + b)%Q :: vec_add x' y'
  | _, _ => []
  end.

(** [np.mean(l, axis=0).tolist()] for a non-empty [l] (the only use). *)
Definition mean0 (l : list Vector) : Py Vector :=
  let! a := array l in
  match rows a with
  | [] => ret []
  | r :: rs =>
      ret (map (fun s => Qred (s / inject_Z (Z.of_nat (length l)))%Q)
               (fold_left vec_add rs (map Qred r)))
  end.

End Numpy.

(** ** faiss: the exact flat index on squared Euclidean distance

    Modelled from the library's contract: [add] and [search] take a
    two-dimensional array whose width is the index dimension; [search]
    returns, for each query row, [k] distances in ascending order with the
    positions of the stored vectors, and fills the slots for which no
    vector is left with position [-1] and the largest float. Vectors at
    equal distance are reported lowest position first. *)

Module Faiss.

Import Numpy.

Record IndexFlatL2 : Type := { d : nat; xb : list Vector }.

Definition new (dim : nat) : IndexFlatL2 := {| d := dim; xb := [] |}.

Definition unpack2 (a : ndarray) : Py (nat * nat) :=
  match shape a with
  | [n; dx] => ret (n, dx)
  | _ => raise (ValueError "not enough values to unpack (expected 2, got 1)")
  end.

Definition add (index : IndexFlatL2) (x : ndarray) : Py IndexFlatL2 :=
  let! nd := unpack2 x in
  if Nat.eqb (snd nd) (d index)
  then ret {| d := d index; xb := xb index ++ rows x |}
  else raise AssertionError.

Fixpoint l2sqr (x y : Vector) : Q :=
  match x, y with
  | a :: x', b :: y' => Qred ((a - b) * (a - b) + l2sqr x' y')%Q
  | _, _ => 0%Q
  end.

Definition FLT_MAX : Q := inject_Z 340282346638528859811704183484516925440.

Fixpoint insert_asc (x : Q * Z) (l : list (Q * Z)) : list (Q * Z) :=
  match l with
  | [] => [x]
  | y :: r => if py_lt (fst x) (fst y) then x :: y :: r else y :: insert_asc x r
  end.

(** Candidates in ascending distance; equal distances keep position order. *)
Definition ranked (c : list (Q * Z)) : list (Q * Z) :=
  fold_left (fun acc x => insert_asc x acc) c [].

Definition knn (base : list Vector) (q : Vector) (k : nat) : list (Q * Z) :=
  let cands := combine (map (l2sqr q) base) (map Z.of_nat (seq 0 (length base))) in
  let top := firstn k (ranked cands) in
  top ++ repeat (FLT_MAX, -1) (k - length top).

(** [D, I = index.search(x, k)] *)
Definition search (index : IndexFlatL2) (x : ndarray) (k : nat)
  : Py (list (list Q) * list (list Z)) :=
  let! nd := unpack2 x in
  if Nat.eqb (snd nd) (d index)
  then
    let res := map (fun q => knn (xb index) q k) (rows x) in
    ret (map (map fst) res, map (map snd) res)
  else raise AssertionError.

End Faiss.

(** ** The analysis result *)

Record Statistics : Type := {
  word_count : nat;
  unique_word_count : nat;
  sentence_count : nat;
  character_count : nat;
  avg_words_per_sentence : Q;
  avg_word_length : Q;
  content_word_count : nat;
  stopword_count : nat
}.

(** One record of [word_dictionary]. A key the code leaves out of the
    record is [None]; [embedding = Some None] is [word_entry['embedding'] =
    None]. *)
Record WordEntry : Type := {
  count : nat;
  frequency : Q;
  is_stopword : bool;
  embedding : option (option Vector);
  embedding_dim : option nat;
  embedding_available : option bool
}.

(** An entry [{'word': ..., 'distance': ...}] of a neighbour list. *)
Record Neighbor : Type := { word : string; distance : Q }.

(** [top_words] holds the pairs of a word and its count, for the entries
    [{'word': ..., 'count': ...}]; an optional key that the code leaves out
    is [None]. *)

Record AnalysisResult : Type := {
  statistics : Statistics;
  top_words : list (string * nat);
  sentences : list string;
  word_dictionary : list (string * WordEntry);
  words_neighbors : list (string * list Neighbor);
  document_embedding : option Vector;
  embedding_coverage : option Q
}.

(** gensim [KeyedVectors]: the dimension and the lookup table. *)
Record KeyedVectors : Type := {
  vector_size : nat;
  vectors : string -> option Vector
}.

(** ** The engine: [get_word_embedding] and [process_text] *)

Section Engine.

(** [nltk.sent_tokenize], [nltk.word_tokenize], the English stopword list
    and the module-level [word2vec_model] ([None] when loading failed). *)
Variable sent_tokenize : string -> list string.
Variable word_tokenize : string -> list string.
Variable stop_words : list string.
Variable word2vec_model : option KeyedVectors.

Definition get_word_embedding (w : string) : option Vector :=
  match word2vec_model with
  | None => None
  | Some model =>
      match vectors model (PyStr.lower w) with
      | Some v => Some v
      | None =>
          match vectors model w with
          | Some v => Some v
          | None => None
          end
      end
  end.

Definition is_not_none {A} (o : option A) : bool :=
  match o with Some _ => true | None => false end.

(** The records of [word_dictionary], one per key of the frequency table. *)
Definition word_entry (include_embeddings : PyVal) (word_count : nat)
    (w : string) (c : nat) : WordEntry :=
  let freq := if (0 <? word_count)%nat then py_round (ratio c word_count) 4 else 0%Q in
  let stop := PyStr.mem w stop_words in
  if truthy include_embeddings then
    match get_word_embedding w with
    | Some e =>
        {| count := c; frequency := freq; is_stopword := stop;
           embedding := Some (Some e); embedding_dim := Some (length e);
           embedding_available := None |}
    | None =>
        {| count := c; frequency := freq; is_stopword := stop;
           embedding := Some None; embedding_dim := None;
           embedding_available := Some false |}
    end
  else
    {| count := c; frequency := freq; is_stopword := stop;
       embedding := None; embedding_dim := None; embedding_available := None |}.

(** The loop over [content_words] that fills [embeddings] and
    [words_list]. *)
Fixpoint resolve (content_words : list string) : list Vector * list string :=
  match content_words with
  | [] => ([], [])
  | w :: r =>
      let '(embs, ws) := resolve r in
      match get_word_embedding w with
      | Some emb => (emb :: embs, w :: ws)
      | None => (embs, ws)
      end
  end.

(** The inner loop [for j in range(1, n)] for the query at row [i]. *)
Definition neighbors_row (n : nat) (words_list : list string)
    (Drow : list Q) (Irow : list Z) : Py (list Neighbor) :=
  mapM (fun j =>
          let! neighbor_idx := nth_or_raise Irow j in
          let! neighbor_word := py_index words_list neighbor_idx in
          let! dist := nth_or_raise Drow j in
          ret {| word := neighbor_word; distance := dist |})
       (seq 1 (n - 1)).

(** The outer loop [for i, word in enumerate(words_list)]. *)
Definition neighbors_loop (n : nat) (words_list : list string)
    (D : list (list Q)) (I : list (list Z)) : Py (list (string * list Neighbor)) :=
  foldM (fun words_neighbors iw =>
           let! Drow := nth_or_raise D (fst iw) in
           let! Irow := nth_or_raise I (fst iw) in
           let! neighbors := neighbors_row n words_list Drow Irow in
           ret (dict_set (snd iw) neighbors words_neighbors))
        (enumerate words_list) [].

Definition process_text (text : string) (include_embeddings : PyVal)
  : Py AnalysisResult :=
  let sanitized := sanitize_text text in
  let sentences := sent_tokenize sanitized in
  let words := List.filter PyStr.isalpha (word_tokenize (PyStr.lower sanitized)) in
  let word_count := length words in
  let sentence_count := length sentences in
  let avg_words_per_sentence :=
    if (0 <? sentence_count)%nat then py_round (ratio word_count sentence_count) 2 else 0%Q in
  let word_freq := Counter words in
  let char_count := PyStr.len (PyStr.remove_spaces sanitized) in
  let unique_word_count := length (py_set words) in
  let avg_word_length :=
    if (0 <? word_count)%nat
    then py_round (ratio (list_sum (map PyStr.len words)) word_count) 2 else 0%Q in
  let content_words := List.filter (fun w => negb (PyStr.mem w stop_words)) words in
  let top_words :=
    List.filter (fun wc => PyStr.mem (fst wc) content_words) (most_common 100 word_freq) in
  let word_dictionary :=
    map (fun wc => (fst wc, word_entry include_embeddings word_count (fst wc) (snd wc)))
        word_freq in
  (* [embeddings] and [words_list] are bound only inside this branch *)
  let branch :=
    if truthy include_embeddings && is_not_none word2vec_model
    then Some (resolve content_words) else None in
  let! document_embedding :=
    match branch with
    | Some (e :: es, _) =>
        let! m := Numpy.mean0 (e :: es) in ret (Some m)
    | _ => ret None
    end in
  let! embeddings :=
    match branch with
    | Some (embs, _) => ret embs
    | None => raise (UnboundLocalError "embeddings")
    end in
  let! arr := Numpy.array embeddings in
  let n := 10%nat in
  let! model :=
    match word2vec_model with
    | Some m => ret m
    | None => raise (AttributeError "'NoneType' object has no attribute 'vector_size'")
    end in
  let index := Faiss.new (vector_size model) in
  let! index := Faiss.add index arr in
  let! DI := Faiss.search index arr n in
  let! words_list :=
    match branch with
    | Some (_, ws) => ret ws
    | None => raise (UnboundLocalError "words_list")
    end in
  let! words_neighbors := neighbors_loop n words_list (fst DI) (snd DI) in
  let coverage :=
    match document_embedding with
    | Some _ =>
        Some (match content_words with
              | [] => 0%Q
              | _ => py_round
                       (ratio (length (List.filter
                                 (fun w => is_not_none (get_word_embedding w))
                                 content_words))
                              (length content_words)) 2
              end)
    | None => None
    end in
  ret {| statistics :=
           {| word_count := word_count;
              unique_word_count := unique_word_count;
              sentence_count := sentence_count;
              character_count := char_count;
              avg_words_per_sentence := avg_words_per_sentence;
              avg_word_length := avg_word_length;
              content_word_count := length content_words;
              stopword_count := word_count - length content_words |};
         top_words := top_words;
         sentences := sentences;
         word_dictionary := word_dictionary;
         words_neighbors := words_neighbors;
         document_embedding := document_embedding;
         embedding_coverage := coverage |}.

(** ** The result cache and the endpoints

    [cache] is the module-level dict; every handler takes the state of the
    cache and returns the new one. Each call of [time.time()] is an
    argument of the handler that makes it. *)

Record CacheEntry : Type := { data : AnalysisResult; expires_at : Q }.

Definition CACHE_TTL : Q := 3600%Q.

Definition clean_expired_cache (current_time : Q) (cache : gmap string CacheEntry)
  : gmap string CacheEntry :=
  let expired_keys :=
    map fst (List.filter (fun kv => py_gt current_time (expires_at (snd kv)))
                         (map_to_list cache)) in
  fold_left (fun c key => delete key c) expired_keys cache.

(** What a handler sends back. [Result] is [jsonify({**result, 'cached':
    ..., 'cache_key': ...})], where the cached answer has no [cache_key];
    [Data] is [jsonify(cache[cache_key]['data'])]; [Failed] is the 500
    answer of the [except Exception] clause. *)
Inductive Response : Type :=
| Result (body : AnalysisResult) (cached : bool) (cache_key : option string)
| Data (body : AnalysisResult)
| Message (message : string)
| Error (status : nat) (error : string)
| Failed (e : PyError).

Definition process_text_endpoint (t_sweep t_check t_store : Q)
    (json : option (list (string * PyVal))) (cache : gmap string CacheEntry)
  : Response * gmap string CacheEntry :=
  match json with
  | None | Some [] => (Error 400 "Text is required", cache)
  | Some fields =>
      match dict_get "text" fields with
      | None => (Error 400 "Text is required", cache)
      | Some (PStr text) =>
          if 5 * 1024 * 1024 <? Z.of_nat (PyStr.len text)
          then (Error 400 "Text too large. Maximum 5MB", cache)
          else if Nat.eqb (PyStr.len (PyStr.strip text)) 0
          then (Error 400 "Text cannot be empty", cache)
          else
            let options :=
              match dict_get "options" fields with
              | Some o => o
              | None => PDict []
              end in
            match options with
            | PDict opts =>
                let include_embeddings :=
                  match dict_get "include_embeddings" opts with
                  | Some v => v
                  | None => PBool true
                  end in
                let cache_key := generate_cache_key text options in
                let cache := clean_expired_cache t_sweep cache in
                let miss :=
                  match process_text text include_embeddings with
                  | inr result =>
                      (Result result false (Some cache_key),
                       <[cache_key := {| data := result;
                                         expires_at := (t_store + CACHE_TTL)%Q |}]> cache)
                  | inl e => (Failed e, cache)
                  end in
                match cache !! cache_key with
                | Some entry =>
                    if py_lt t_check (expires_at entry)
                    then (Result (data entry) true None, cache)
                    else miss
                | None => miss
                end
            | _ => (Failed (AttributeError "object has no attribute 'get'"), cache)
            end
      | Some _ => (Error 400 "Text must be a string", cache)
      end
  end.

Definition get_cached (t_sweep t_check : Q) (cache_key : string)
    (cache : gmap string CacheEntry) : Response * gmap string CacheEntry :=
  let cache := clean_expired_cache t_sweep cache in
  match cache !! cache_key with
  | None => (Error 404 "Cache entry not found or expired", cache)
  | Some entry =>
      if py_ge t_check (expires_at entry)
      then (Error 404 "Cache entry expired", delete cache_key cache)
      else (Data (data entry), cache)
  end.

Definition delete_cached (cache_key : string) (cache : gmap string CacheEntry)
  : Response * gmap string CacheEntry :=
  match cache !! cache_key with
  | Some _ => (Message "Cache entry deleted", delete cache_key cache)
  | None => (Error 404 "Cache entry not found", cache)
  end.

End Engine.

(** ** Concrete collaborators for running the engine

    Stand-ins that agree with the libraries on the inputs used below:
    texts made of lower-case words separated by single spaces, forming one
    sentence. *)

Module Demo.

Fixpoint split_words (cur : string) (s : string) : list string :=
  match s with
  | EmptyString => match cur with EmptyString => [] | _ => [cur] end
  | String c r =>
      if PyStr.space1 c
      then match cur with
           | EmptyString => split_words EmptyString r
           | _ => cur :: split_words EmptyString r
           end
      else split_words (cur +:+ String c EmptyString) r
  end.

Definition word_tokenize (s : string) : list string := split_words EmptyString s.

Definition sent_tokenize (s : string) : list string :=
  match s with
  | EmptyString => []
  | _ => [s]
  end.

(** [stopwords.words('english')] *)
Definition stop_words : list string :=
  [ "i"; "me"; "my"; "myself"; "we"; "our"; "ours"; "ourselves"; "you";
    "you're"; "you've"; "you'll"; "you'd"; "your"; "yours"; "yourself";
    "yourselves"; "he"; "him"; "his"; "himself"; "she"; "she's"; "her";
    "hers"; "herself"; "it"; "it's"; "its"; "itself"; "they"; "them";
    "their"; "theirs"; "themselves"; "what"; "which"; "who"; "whom"; "this";
    "that"; "that'll"; "these"; "those"; "am"; "is"; "are"; "was"; "were";
    "be"; "been"; "being"; "have"; "has"; "had"; "having"; "do"; "does";
    "did"; "doing"; "a"; "an"; "the"; "and"; "but"; "if"; "or"; "because";
    "as"; "until"; "while"; "of"; "at"; "by"; "for"; "with"; "about";
    "against"; "between"; "into"; "through"; "during"; "before"; "after";
    "above"; "below"; "to"; "from"; "up"; "down"; "in"; "out"; "on"; "off";
    "over"; "under"; "again"; "further"; "then"; "once"; "here"; "there";
    "when"; "where"; "why"; "how"; "all"; "any"; "both"; "each"; "few";
    "more"; "most"; "other"; "some"; "such"; "no"; "nor"; "not"; "only";
    "own"; "same"; "so"; "than"; "too"; "very"; "s"; "t"; "can"; "will";
    "just"; "don"; "don't"; "should"; "should've"; "now"; "d"; "ll"; "m";
    "o"; "re"; "ve"; "y"; "ain"; "aren"; "aren't"; "couldn"; "couldn't";
    "didn"; "didn't"; "doesn"; "doesn't"; "hadn"; "hadn't"; "hasn";
    "hasn't"; "haven"; "haven't"; "isn"; "isn't"; "ma"; "mightn";
    "mightn't"; "mustn"; "mustn't"; "needn"; "needn't"; "shan"; "shan't";
    "shouldn"; "shouldn't"; "wasn"; "wasn't"; "weren"; "weren't"; "won";
    "won't"; "wouldn"; "wouldn't" ].

(** A two-dimensional embedding table with three words. *)
Definition table (w : string) : option Vector :=
  if String.eqb w "cat" then Some [1%Q; 0%Q]
  else if String.eqb w "dog" then Some [0%Q; 2%Q]
  else if String.eqb w "fish" then Some [3%Q; 3%Q]
  else None.

Definition model : KeyedVectors := {| vector_size := 2; vectors := table |}.

Definition run (text : string) (include_embeddings : PyVal) : Py AnalysisResult :=
  process_text sent_tokenize word_tokenize stop_words (Some model)
               text include_embeddings.

Definition run_unloaded (text : string) (include_embeddings : PyVal)
  : Py AnalysisResult :=
  process_text sent_tokenize word_tokenize stop_words None text include_embeddings.

Definition endpoint :=
  process_text_endpoint sent_tokenize word_tokenize stop_words (Some model).

(** The answer of the engine to the text [cat dog], written out. Each
    neighbour list holds the one real neighbour followed by eight entries
    read from the unfilled slots of the search result. *)
Definition unfilled (w : string) : list Neighbor :=
  repeat {| word := w; distance := Faiss.FLT_MAX |} 8.

Definition cat_dog : AnalysisResult :=
  {| statistics :=
       {| word_count := 2; unique_word_count := 2; sentence_count := 1;
          character_count := 6; avg_words_per_sentence := 2%Q;
          avg_word_length := 3%Q; content_word_count := 2;
          stopword_count := 0 |};
     top_words := [("cat", 1%nat); ("dog", 1%nat)];
     sentences := ["cat dog"];
     word_dictionary :=
       [("cat", {| count := 1; frequency := (1 # 2)%Q; is_stopword := false;
                   embedding := Some (Some [1%Q; 0%Q]);
                   embedding_dim := Some 2%nat; embedding_available := None |});
        ("dog", {| count := 1; frequency := (1 # 2)%Q; is_stopword := false;
                   embedding := Some (Some [0%Q; 2%Q]);
                   embedding_dim := Some 2%nat; embedding_available := None |})];
     words_neighbors :=
       [("cat", {| word := "dog"; distance := 5%Q |} :: unfilled "dog");
        ("dog", {| word := "cat"; distance := 5%Q |} :: unfilled "dog")];
     document_embedding := Some [(1 # 2)%Q; 1%Q];
     embedding_coverage := Some 1%Q |}.

(** The fingerprint of the text [cat dog] with empty options. *)
Definition cat_dog_key : string :=
  "e734336c5eb6a8d8e9017d4b56bf40f4357db1dd2b2d51e6a39df34eddb64d9b".

Definition cat_dog_entry (stored_at : Q) : CacheEntry :=
  {| data := cat_dog; expires_at := (stored_at + CACHE_TTL)%Q |}.





(** A no-break space (U+00A0, the bytes C2 A0) followed by a space. *)
Definition no_break_space : string :=
  String (ascii_of_N 194) (String (ascii_of_N 160) " ").

End Demo.
(** The request body [{"text": text, "options": opts}]. *)
Definition request (text : string) (opts : list (string * PyVal))
  : option (list (string * PyVal)) :=
  Some [("text", PStr text); ("options", PDict opts)].

(** The text passes the size and emptiness checks of the endpoint. *)
Definition acceptable (text : string) : Prop :=
  (5 * 1024 * 1024 <? Z.of_nat (PyStr.len text)) = false /\
  Nat.eqb (PyStr.len (PyStr.strip text)) 0 = false.

(** A response with the [cached] indicator left out. *)
Definition without_cached_flag (r : Response) : Response :=
  match r with
  | Result body _ ck => Result body false ck
  | _ => r
  end.

(** [options.get('include_embeddings', True)] *)
Definition include_flag (opts : list (string * PyVal)) : PyVal :=
  match dict_get "include_embeddings" opts with
  | Some v => v
  | None => PBool true
  end.

(** Two options mappings with the same key-value pairs, whatever the
    order in which the keys were inserted. *)
Definition same_items (o1 o2 : list (string * PyVal)) : Prop :=
  forall k, dict_get k o1 = dict_get k o2.

(** Texts and values written in ASCII, on which [PyRepr.repr] is [repr]
    character for character. *)
Fixpoint ascii_text (s : string) : bool :=
  match s with
  | EmptyString => true
  | String c r => (PyRepr.code c <? 128) && ascii_text r
  end.

Fixpoint ascii_value (v : PyVal) : bool :=
  match v with
  | PStr s => ascii_text s
  | PList l => forallb ascii_value l
  | PDict d =>
      (fix items (d : list (string * PyVal)) : bool :=
         match d with
         | [] => true
         | (k, x) :: r => ascii_text k && ascii_value x && items r
         end) d
  | _ => true
  end.

(** The items of a mapping as [repr] prints them between the braces. *)
Fixpoint dict_items (d : list (string * PyVal)) : string :=
  match d with
  | [] => EmptyString
  | (k, x) :: r =>
      match r with
      | [] => PyRepr.repr_str k +:+ ": " +:+ PyRepr.repr x
      | _ :: _ => PyRepr.repr_str k +:+ ": " +:+ PyRepr.repr x +:+ ", " +:+ dict_items r
      end
  end.

(** Reading a string literal back: [unescape q s] is the text of the
    literal that [s] continues after its opening quote [q], together with
    what follows the closing quote. *)
Definition hex_value (c : ascii) : Z :=
  if PyRepr.code c <? 58 then PyRepr.code c - 48 else PyRepr.code c - 87.

Definition unescape_char (e : ascii) : ascii :=
  if Ascii.eqb e "t" then ascii_of_N 9
  else if Ascii.eqb e "n" then ascii_of_N 10
  else if Ascii.eqb e "r" then ascii_of_N 13
  else e.

Fixpoint unescape (q : ascii) (s : string) : option (string * string) :=
  match s with
  | EmptyString => None
  | String c r =>
      if Ascii.eqb c q then Some (EmptyString, r)
      else if Ascii.eqb c "\" then
        match r with
        | String e r1 =>
            if Ascii.eqb e "x" then
              match r1 with
              | String h (String l r2) =>
                  match unescape q r2 with
                  | Some (t, rest) =>
                      Some (String (ascii_of_N (Z.to_N (16 * hex_value h + hex_value l))) t,
                            rest)
                  | None => None
                  end
              | _ => None
              end
            else
              match unescape q r1 with
              | Some (t, rest) => Some (String (unescape_char e) t, rest)
              | None => None
              end
        | EmptyString => None
        end
      else
        match unescape q r with
        | Some (t, rest) => Some (String c t, rest)
        | None => None
        end
  end.

(** Names for two intermediate values of [process_text]: the list [words]
    after the alphabetic filter, and [content_words]. *)
Definition document_words (word_tokenize : string -> list string) (text : string)
  : list string :=
  List.filter PyStr.isalpha (word_tokenize (PyStr.lower (sanitize_text text))).

Definition content_words_of (stop_words words : list string) : list string :=
  List.filter (fun w => negb (PyStr.mem w stop_words)) words.


(** The distinct words of a list, in the order of their first occurrence. *)
Definition first_seen (words : list string) : list string :=
  fold_left (fun acc w => if PyStr.mem w acc then acc else (acc ++ [w])%list) words [].

(** Ranking order of the frequency table: no later item has a larger count. *)
Definition by_count_desc (x y : string * nat) : Prop := (snd y <= snd x)%nat.

(** ** The remaining handlers: uploads, word lookup, health *)

Definition ALLOWED_EXTENSIONS : list string :=
  ["txt"; "text"; "log"; "md"; "json"; "csv"].

(** [s.rsplit('.', 1)]: the text before and after the last dot, or the text
    alone when it holds no dot. *)
Fixpoint rsplit_dot (s : string) : list string :=
  match s with
  | EmptyString => [EmptyString]
  | String c r =>
      match rsplit_dot r with
      | [before; after] => [String c before; after]
      | _ => if Ascii.eqb c "." then [EmptyString; r] else [s]
      end
  end.

Definition allowed_file (filename : string) : bool :=
  PyRepr.contains "." filename &&
  match rsplit_dot filename with
  | [_; extension] => PyStr.mem (PyStr.lower extension) ALLOWED_EXTENSIONS
  | _ => false
  end.

(** [bytes.decode('utf-8')] succeeds on the well-formed byte sequences. *)
Definition byte_in (lo hi : Z) (c : ascii) : bool :=
  (lo <=? PyRepr.code c) && (PyRepr.code c <=? hi).

Fixpoint utf8_valid (s : string) : bool :=
  match s with
  | EmptyString => true
  | String c r =>
      if byte_in 0 127 c then utf8_valid r
      else
        match r with
        | String c1 r1 =>
            if byte_in 194 223 c && byte_in 128 191 c1 then utf8_valid r1
            else
              match r1 with
              | String c2 r2 =>
                  if (byte_in 224 224 c && byte_in 160 191 c1
                      || byte_in 225 236 c && byte_in 128 191 c1
                      || byte_in 237 237 c && byte_in 128 159 c1
                      || byte_in 238 239 c && byte_in 128 191 c1)
                     && byte_in 128 191 c2
                  then utf8_valid r2
                  else
                    match r2 with
                    | String c3 r3 =>
                        if (byte_in 240 240 c && byte_in 144 191 c1
                            || byte_in 241 243 c && byte_in 128 191 c1
                            || byte_in 244 244 c && byte_in 128 143 c1)
                           && byte_in 128 191 c2 && byte_in 128 191 c3
                        then utf8_valid r3
                        else false
                    | EmptyString => false
                    end
              | EmptyString => false
              end
        | EmptyString => false
        end
  end.

(** An uploaded file: its name and its bytes. *)
Record FileStorage : Type := { filename : string; content : string }.

(** The answers of the upload handler: [Uploaded] is [jsonify({**result,
    'cached': ..., 'cache_key': ..., 'filename': ...})], where the cached
    answer has no [cache_key]. *)
Inductive FileResponse : Type :=
| Uploaded (body : AnalysisResult) (cached : bool) (cache_key : option string)
           (name : string)
| FileError (status : nat) (error : string)
| FileFailed (e : PyError).


(** The answer of [health_check]; the timestamp is left out. *)
Record Health : Type := { cache_size : nat; word2vec_loaded : bool }.

Section Handlers.

Variable sent_tokenize : string -> list string.
Variable word_tokenize : string -> list string.
Variable stop_words : list string.
Variable word2vec_model : option KeyedVectors.

(** [werkzeug.utils.secure_filename] and [json.loads]. *)
Variable secure_filename : string -> string.
Variable json_loads : string -> Py PyVal.


Definition health_check (t_sweep : Q) (cache : gmap string CacheEntry)
  : Health * gmap string CacheEntry :=
  let cache := clean_expired_cache t_sweep cache in
  ({| cache_size := size cache;
      word2vec_loaded := is_not_none word2vec_model |}, cache).

(** [process_file_endpoint]: [file] is [request.files.get('file')] and
    [form_options] is [request.form.get('options')]. The text of the
    "not allowed" answer lists the extensions in the order of a set and is
    cut short here. *)
Definition process_file_endpoint (t_sweep t_check t_store : Q)
    (file : option FileStorage) (form_options : option string)
    (cache : gmap string CacheEntry)
  : FileResponse * gmap string CacheEntry :=
  match file with
  | None => (FileError 400 "No file uploaded", cache)
  | Some file =>
      if String.eqb (filename file) EmptyString
      then (FileError 400 "No file selected", cache)
      else if negb (allowed_file (filename file))
      then (FileError 400 "File type not allowed", cache)
      else if negb (utf8_valid (content file))
      then (FileError 400 "File must be valid UTF-8 text", cache)
      else
        let text := content file in
        if 5 * 1024 * 1024 <? Z.of_nat (PyStr.len text)
        then (FileError 400 "File too large. Maximum 5MB", cache)
        else
          match
            match form_options with
            | Some raw => json_loads raw
            | None => ret (PDict [])
            end
          with
          | inl e => (FileFailed e, cache)
          | inr (PDict opts) =>
              let options := PDict opts in
              let include_embeddings := include_flag opts in
              let cache_key := generate_cache_key text options in
              let cache := clean_expired_cache t_sweep cache in
              let miss :=
                match process_text sent_tokenize word_tokenize stop_words
                        word2vec_model text include_embeddings with
                | inr result =>
                    (Uploaded result false (Some cache_key)
                              (secure_filename (filename file)),
                     <[cache_key := {| data := result;
                                       expires_at := (t_store + CACHE_TTL)%Q |}]> cache)
                | inl e => (FileFailed e, cache)
                end in
              match cache !! cache_key with
              | Some entry =>
                  if py_lt t_check (expires_at entry)
                  then (Uploaded (data entry) true None
                                 (secure_filename (filename file)), cache)
                  else miss
              | None => miss
              end
          | inr _ => (FileFailed (AttributeError "object has no attribute 'get'"), cache)
          end
  end.

End Handlers.

(** A model whose vectors all have the dimension it announces. *)
Definition well_formed (model : KeyedVectors) : Prop :=
  forall w v, vectors model w = Some v -> length v = vector_size model.

(** A text holds a tag when some [<] is followed by a character other than
    [>] and, later, by a [>]. *)
Fixpoint has_tag (s : string) : bool :=
  match s with
  | EmptyString => false
  | String c r =>
      (Ascii.eqb c "<" &&
       match r with
       | String c' r' => negb (Ascii.eqb c' ">") && PyRepr.contains ">" r'
       | EmptyString => false
       end) || has_tag r
  end.

Definition is_hex (c : ascii) : bool :=
  byte_in 48 57 c || byte_in 97 102 c.

Fixpoint all_hex (s : string) : bool :=
  match s with
  | EmptyString => true
  | String c r => is_hex c && all_hex r
  end.

(** The options of an upload are the mapping [opts]: the parsed form field,
    or [{}] when the form has none. *)
Definition upload_options (json_loads : string -> Py PyVal)
    (form_options : option string) (opts : list (string * PyVal)) : Prop :=
  match form_options with
  | Some raw => json_loads raw = inr (PDict opts)
  | None => opts = []
  end.

(** Stand-ins for the upload collaborators: they agree with werkzeug on a
    plain file name and with [json.loads] on the empty object. *)
Module DemoUpload.

Definition secure_filename (name : string) : string := name.

Definition json_loads (raw : string) : Py PyVal :=
  if String.eqb raw "{}" then ret (PDict [])
  else raise (ValueError "Expecting value").

Definition notes : FileStorage := {| filename := "notes.txt"; content := "cat dog" |}.

Definition upload :=
  process_file_endpoint Demo.sent_tokenize Demo.word_tokenize Demo.stop_words
    (Some Demo.model) secure_filename json_loads.

End DemoUpload.

(** * Properties *)

(** ** Order tests *)

Lemma py_lt_spec (x y : Q) : py_lt x y = true <-> (x < y)%Q.
Proof.
  unfold py_lt. rewrite negb_true_iff. split.
  - intros H. apply Qnot_le_lt. intros Hle. apply Qle_bool_iff in Hle. congruence.
  - intros H. destruct (Qle_bool y x) eqn:E; [|reflexivity].
    apply Qle_bool_iff in E. exfalso. apply (Qlt_not_le _ _ H E).
Qed.

Lemma py_gt_lt (x y : Q) : py_gt x y = py_lt y x.
Proof. reflexivity. Qed.

Lemma py_ge_spec (x y : Q) : py_ge x y = true <-> (y <= x)%Q.
Proof. unfold py_ge. apply Qle_bool_iff. Qed.

Lemma py_ge_lt (x y : Q) : py_ge x y = negb (py_lt x y).
Proof. unfold py_ge, py_lt. now rewrite negb_involutive. Qed.

(** ** The sweep *)

Section CacheFacts.

Implicit Types (cache : gmap string CacheEntry) (k : string) (e : CacheEntry).

Lemma lookup_fold_delete (ks : list string) cache k :
  fold_left (fun c key => delete key c) ks cache !! k =
  if decide (k ∈ ks) then None else cache !! k.
Proof.
  revert cache. induction ks as [|a ks IH]; intros cache; simpl.
  - destruct (decide (k ∈ [])) as [H|H]; [|done]. by apply elem_of_nil in H.
  - rewrite IH. destruct (decide (k ∈ a :: ks)) as [Hin|Hout].
    + destruct (decide (k ∈ ks)) as [|Hks]; [done|].
      apply elem_of_cons in Hin as [->|Hin]; [|done]. apply lookup_delete_eq.
    + destruct (decide (k ∈ ks)) as [Hks|_].
      * exfalso. apply Hout. by apply elem_of_cons; right.
      * apply lookup_delete_ne. intros ->. apply Hout. by apply elem_of_cons; left.
Qed.

Lemma clean_expired_cache_lookup (now : Q) cache k :
  clean_expired_cache now cache !! k =
  match cache !! k with
  | Some e => if py_gt now (expires_at e) then None else Some e
  | None => None
  end.
Proof.
  unfold clean_expired_cache. rewrite lookup_fold_delete.
  destruct (decide _) as [Hin|Hin].
  - apply list_elem_of_In in Hin. apply in_map_iff in Hin. destruct Hin as [[k' e] [<- Hin]].
    apply filter_In in Hin as [Hin Hgt].
    apply list_elem_of_In, elem_of_map_to_list in Hin. simpl in *.
    rewrite Hin, Hgt. done.
  - destruct (cache !! k) as [e|] eqn:Hk; [|done].
    destruct (py_gt now (expires_at e)) eqn:Hgt; [|done].
    exfalso. apply Hin. apply list_elem_of_In, in_map_iff.
    exists (k, e). split; [done|].
    apply filter_In. split; [|done].
    by apply list_elem_of_In, elem_of_map_to_list.
Qed.

Lemma py_gt_irrefl (x : Q) : py_gt x x = false.
Proof.
  unfold py_gt. apply negb_false_iff. apply Qle_bool_iff. apply Qle_refl.
Qed.

Lemma sweep_keeps_unexpired (t : Q) cache k e :
  cache !! k = Some e -> (t <= expires_at e)%Q ->
  clean_expired_cache t cache !! k = Some e.
Proof.
  intros Hk Hle. rewrite clean_expired_cache_lookup, Hk.
  unfold py_gt. apply Qle_bool_iff in Hle. by rewrite Hle.
Qed.

Lemma sweep_lookup_Some (t : Q) cache k e :
  clean_expired_cache t cache !! k = Some e -> cache !! k = Some e.
Proof.
  rewrite clean_expired_cache_lookup.
  destruct (cache !! k) as [e'|]; [|done].
  destruct (py_gt t (expires_at e')); [done|]. done.
Qed.

Lemma sweep_lookup_None (t : Q) cache k :
  cache !! k = None -> clean_expired_cache t cache !! k = None.
Proof. intros Hk. by rewrite clean_expired_cache_lookup, Hk. Qed.

End CacheFacts.


(** ** The endpoints *)

Section EndpointFacts.

Variable sent_tokenize : string -> list string.
Variable word_tokenize : string -> list string.
Variable stop_words : list string.
Variable word2vec_model : option KeyedVectors.

Local Abbreviation endpoint :=
  (process_text_endpoint sent_tokenize word_tokenize stop_words word2vec_model).
Local Abbreviation analyse :=
  (process_text sent_tokenize word_tokenize stop_words word2vec_model).

(** What the endpoint does with a well-formed request, the validation
    steps discharged. *)
Lemma endpoint_accepts (t_sweep t_check t_store : Q) text opts
    (cache : gmap string CacheEntry) :
  acceptable text ->
  endpoint t_sweep t_check t_store (request text opts) cache =
  let cache_key := generate_cache_key text (PDict opts) in
  let swept := clean_expired_cache t_sweep cache in
  let miss :=
    match analyse text (include_flag opts) with
    | inr result =>
        (Result result false (Some cache_key),
         <[cache_key := {| data := result;
                           expires_at := (t_store + CACHE_TTL)%Q |}]> swept)
    | inl e => (Failed e, swept)
    end in
  match swept !! cache_key with
  | Some entry =>
      if py_lt t_check (expires_at entry)
      then (Result (data entry) true None, swept)
      else miss
  | None => miss
  end.
Proof.
  intros [Hsize Hblank].
  unfold process_text_endpoint, request.
  change (dict_get "text" [("text", PStr text); ("options", PDict opts)])
    with (Some (PStr text)).
  change (dict_get "options" [("text", PStr text); ("options", PDict opts)])
    with (Some (PDict opts)).
  cbv beta iota. rewrite Hsize, Hblank. reflexivity.
Qed.

(** A response flagged [cached] can only come from the hit branch, which
    hands out the stored payload of an entry that the sweep kept and whose
    expiry lies strictly after the time of the check. *)
Lemma endpoint_hit_inv (t_sweep t_check t_store : Q) json
    (cache cache' : gmap string CacheEntry) body ck :
  endpoint t_sweep t_check t_store json cache = (Result body true ck, cache') ->
  exists key e,
    cache !! key = Some e /\ body = data e /\ ck = None /\
    (t_check < expires_at e)%Q /\
    cache' = clean_expired_cache t_sweep cache /\ cache' !! key = Some e.
Proof.
  unfold process_text_endpoint. intros H.
  destruct json as [[|f fs]|]; [discriminate| |discriminate].
  destruct (dict_get "text" (f :: fs)) as [[| | |text| |]|]; try discriminate.
  destruct (5 * 1024 * 1024 <? Z.of_nat (PyStr.len text)); [discriminate|].
  destruct (Nat.eqb (PyStr.len (PyStr.strip text)) 0); [discriminate|].
  destruct (match dict_get "options" (f :: fs) with Some o => o | None => PDict [] end)
    as [| | | | |opts] eqn:Hopts; try discriminate.
  set (key := generate_cache_key text (PDict opts)) in *.
  set (swept := clean_expired_cache t_sweep cache) in *.
  assert (Hmiss :
    match analyse text
            match dict_get "include_embeddings" opts with
            | Some v => v | None => PBool true end with
    | inr result =>
        (Result result false (Some key),
         <[key := {| data := result; expires_at := (t_store + CACHE_TTL)%Q |}]> swept)
    | inl e => (Failed e, swept)
    end <> (Result body true ck, cache')).
  { destruct (analyse text _); intros Heq; discriminate. }
  destruct (swept !! key) as [e|] eqn:Hk; [|by destruct (Hmiss H)].
  destruct (py_lt t_check (expires_at e)) eqn:Hlt; [|by destruct (Hmiss H)].
  injection H as <- <- <-.
  exists key, e. repeat split; try done.
  - by apply (sweep_lookup_Some t_sweep).
  - by apply py_lt_spec.
Qed.

(** C6, as amended: when the first request for a well-formed (text,
    options) pair is computed and stored at time [t3], the first answer
    carries the fingerprint as [cache_key], and a second request for the
    same pair is answered as follows. If its expiry check happens before
    [t3 + CACHE_TTL], it is served from the cache: flagged [cached], with
    exactly the analysis fields of the first answer and no [cache_key]
    field. If the check happens at or after [t3 + CACHE_TTL], the analysis
    is computed and stored again and the answer equals the first one,
    flagged [cached = false]. The clock does not run backwards between the
    sweep and the check. *)
Theorem second_request_served_from_cache (t1 t2 t3 t4 t5 t6 : Q) text opts
    (cache cache1 : gmap string CacheEntry) r ck :
  acceptable text ->
  endpoint t1 t2 t3 (request text opts) cache = (Result r false ck, cache1) ->
  (t4 <= t5)%Q ->
  ck = Some (generate_cache_key text (PDict opts)) /\
  ((t5 < t3 + CACHE_TTL)%Q ->
   endpoint t4 t5 t6 (request text opts) cache1 =
     (Result r true None, clean_expired_cache t4 cache1)) /\
  ((t3 + CACHE_TTL <= t5)%Q ->
   endpoint t4 t5 t6 (request text opts) cache1 =
     (Result r false ck,
      <[generate_cache_key text (PDict opts) :=
          {| data := r; expires_at := (t6 + CACHE_TTL)%Q |}]>
        (clean_expired_cache t4 cache1))).
Proof.
  intros Hok H1 H45. rewrite (endpoint_accepts _ _ _ _ _ _ Hok) in H1.
  cbv zeta in H1.
  set (key := generate_cache_key text (PDict opts)) in *.
  set (swept := clean_expired_cache t1 cache) in *.
  assert (Hmiss :
    match analyse text (include_flag opts) with
    | inr result =>
        (Result result false (Some key),
         <[key := {| data := result; expires_at := (t3 + CACHE_TTL)%Q |}]> swept)
    | inl e => (Failed e, swept)
    end = (Result r false ck, cache1) ->
    ck = Some key /\ analyse text (include_flag opts) = inr r /\
    cache1 !! key = Some {| data := r; expires_at := (t3 + CACHE_TTL)%Q |}).
  { destruct (analyse text (include_flag opts)) as [err|res]; [discriminate|].
    intros Heq. injection Heq as <- <- <-. split; [done|]. split; [done|].
    apply lookup_insert_eq. }
  assert (Hstored : ck = Some key /\ analyse text (include_flag opts) = inr r /\
    cache1 !! key = Some {| data := r; expires_at := (t3 + CACHE_TTL)%Q |}).
  { destruct (swept !! key) as [e|]; [|by apply Hmiss].
    destruct (py_lt t2 (expires_at e)); [discriminate|by apply Hmiss]. }
  destruct Hstored as (-> & Hrun & Hentry). split; [done|].
  rewrite (endpoint_accepts _ _ _ _ _ _ Hok). cbv zeta. fold key. rewrite Hrun.
  split.
  - intros H5. rewrite (sweep_keeps_unexpired t4 _ _ _ Hentry); simpl.
    + apply py_lt_spec in H5. by rewrite H5.
    + apply Qlt_le_weak. by apply Qle_lt_trans with t5.
  - intros H5. rewrite clean_expired_cache_lookup, Hentry. simpl.
    destruct (py_gt t4 (t3 + CACHE_TTL)); [done|].
    assert (Hlt : py_lt t5 (t3 + CACHE_TTL) = false).
    { apply not_true_is_false. intros Hlt. apply py_lt_spec in Hlt.
      by apply (Qlt_not_le _ _ Hlt). }
    cbn [expires_at data]. by rewrite Hlt.
Qed.

(** C8: a read of the cache never hands out an entry at or after its expiry
    instant. For [get_cached], with [now] any instant up to the expiry
    check: a fingerprint that is absent, or whose entry has
    [expires_at <= now], is answered 404 and is absent afterwards; a payload
    is returned only from an entry with [now < expires_at]. The cache
    lookup of [process_text_endpoint] likewise answers from the cache only
    when [now < expires_at]. *)
Theorem get_never_returns_expired (t_sweep t_check now : Q) fp
    (cache : gmap string CacheEntry) :
  (now <= t_check)%Q ->
  ((cache !! fp = None \/ exists e, cache !! fp = Some e /\ (expires_at e <= now)%Q) ->
     (exists msg, (get_cached t_sweep t_check fp cache).1 = Error 404 msg) /\
     (get_cached t_sweep t_check fp cache).2 !! fp = None) /\
  (forall body, (get_cached t_sweep t_check fp cache).1 = Data body ->
     exists e, cache !! fp = Some e /\ body = data e /\ (now < expires_at e)%Q) /\
  (forall t_store json body ck,
     (endpoint t_sweep t_check t_store json cache).1 = Result body true ck ->
     exists key e, cache !! key = Some e /\ body = data e /\ (now < expires_at e)%Q).
Proof.
  intros Hnow. unfold get_cached. split; [|split].
  - intros [Habs|[e [He Hexp]]].
    + rewrite (sweep_lookup_None _ _ _ Habs). simpl. split; [eauto|].
      by apply sweep_lookup_None.
    + assert (Hge : py_ge t_check (expires_at e) = true).
      { apply py_ge_spec. by apply Qle_trans with now. }
      destruct (clean_expired_cache t_sweep cache !! fp) as [e'|] eqn:Hsw.
      * apply sweep_lookup_Some in Hsw as He'. rewrite He in He'.
        injection He' as <-. rewrite Hge. simpl. split; [eauto|].
        apply lookup_delete_eq.
      * simpl. split; [eauto|done].
  - intros body.
    destruct (clean_expired_cache t_sweep cache !! fp) as [e|] eqn:Hsw; [|discriminate].
    rewrite py_ge_lt. destruct (py_lt t_check (expires_at e)) eqn:Hlt; [|discriminate].
    simpl. intros [= <-]. exists e. repeat split.
    + by apply (sweep_lookup_Some t_sweep).
    + apply py_lt_spec in Hlt. by apply Qle_lt_trans with t_check.
  - intros t_store json body ck Hhit.
    destruct (endpoint t_sweep t_check t_store json cache) as [resp cache'] eqn:Hrun.
    simpl in Hhit. subst resp.
    apply endpoint_hit_inv in Hrun as (key & e & He & -> & _ & Hlt & _).
    exists key, e. repeat split; [done|]. by apply Qle_lt_trans with t_check.
Qed.

(** C9: a hit does not touch the entry it serves. For a fingerprint stored
    with entry [e] and not yet expired at the time of the check,
    [get_cached] returns the payload of [e] and leaves [e] in place, and so
    does [process_text_endpoint] for every well-formed request with that
    fingerprint: same payload, same [expires_at]. The clock does not run
    backwards between the sweep and the check. *)
Theorem cache_hit_is_read_only (t_sweep t_check : Q) fp e
    (cache : gmap string CacheEntry) :
  cache !! fp = Some e ->
  (t_sweep <= t_check)%Q -> (t_check < expires_at e)%Q ->
  ((get_cached t_sweep t_check fp cache).1 = Data (data e) /\
   (get_cached t_sweep t_check fp cache).2 !! fp = Some e) /\
  (forall t_store text opts,
     acceptable text -> generate_cache_key text (PDict opts) = fp ->
     (endpoint t_sweep t_check t_store (request text opts) cache).1
       = Result (data e) true None /\
     (endpoint t_sweep t_check t_store (request text opts) cache).2 !! fp = Some e).
Proof.
  intros He Hmono Hlive.
  assert (Hkept : clean_expired_cache t_sweep cache !! fp = Some e).
  { apply sweep_keeps_unexpired; [done|].
    apply Qlt_le_weak. by apply Qle_lt_trans with t_check. }
  assert (Hlt : py_lt t_check (expires_at e) = true) by by apply py_lt_spec.
  split.
  - unfold get_cached. rewrite Hkept, py_ge_lt, Hlt. simpl. done.
  - intros t_store text opts Hok Hfp.
    rewrite (endpoint_accepts _ _ _ _ _ _ Hok). cbv zeta.
    rewrite Hfp, Hkept, Hlt. simpl. done.
Qed.

End EndpointFacts.

(** C7 fails on the code at the boundary: an entry whose [expires_at]
    equals the time of the sweep is still in the cache after the sweep. The
    sweep removes exactly the entries with [expires_at < now]; the entries
    with [expires_at >= now] stay as they are. *)
Theorem sweep_keeps_entry_expiring_now (cache : gmap string CacheEntry) k e :
  clean_expired_cache (expires_at e) (<[k := e]> cache) !! k = Some e /\
  (forall now k',
     clean_expired_cache now cache !! k' =
     match cache !! k' with
     | Some e' => if py_lt (expires_at e') now then None else Some e'
     | None => None
     end).
Proof.
  split.
  - rewrite clean_expired_cache_lookup, lookup_insert_eq.
    by rewrite py_gt_irrefl.
  - intros now k'. apply clean_expired_cache_lookup.
Qed.

(** C10: [delete_cached] reads no clock. It answers "deleted" exactly when
    the key is in the cache, whatever the entry's [expires_at], and "not
    found" exactly when the key is absent; afterwards the key is absent and
    the other entries are as before. *)
Theorem delete_cached_ignores_expiry (cache : gmap string CacheEntry) k :
  (is_Some (cache !! k) <->
     (delete_cached k cache).1 = Message "Cache entry deleted") /\
  (cache !! k = None <->
     (delete_cached k cache).1 = Error 404 "Cache entry not found") /\
  (delete_cached k cache).2 = delete k cache.
Proof.
  unfold delete_cached. destruct (cache !! k) as [e|] eqn:Hk; simpl.
  - split; [|split]; [split; [done|by exists e] | split; discriminate | done].
  - split; [|split]; [split; [by intros [e He]|discriminate] | done |].
    symmetry. by apply delete_id.
Qed.

(** ** Runs of the service *)

Example run_cat_dog : Demo.run "cat dog" (PBool true) = inr Demo.cat_dog.
Proof. vm_compute. reflexivity. Qed.

Example cat_dog_acceptable : acceptable "cat dog".
Proof. split; reflexivity. Qed.

Example include_flag_default : include_flag [] = PBool true.
Proof. reflexivity. Qed.

Example cat_dog_fingerprint :
  generate_cache_key "cat dog" (PDict []) = Demo.cat_dog_key.
Proof. vm_compute. reflexivity. Qed.

Example first_request_cat_dog :
  Demo.endpoint 0 0 0 (request "cat dog" []) ∅ =
  (Result Demo.cat_dog false (Some Demo.cat_dog_key),
   <[Demo.cat_dog_key := Demo.cat_dog_entry 0]> (clean_expired_cache 0 ∅)).
Proof.
  unfold Demo.endpoint. rewrite (endpoint_accepts _ _ _ _ _ _ _ _ _ _ cat_dog_acceptable).
  cbv zeta. rewrite cat_dog_fingerprint.
  rewrite (sweep_lookup_None 0 ∅ Demo.cat_dog_key (lookup_empty _)).
  rewrite include_flag_default.
  change (process_text Demo.sent_tokenize Demo.word_tokenize Demo.stop_words
            (Some Demo.model) "cat dog" (PBool true))
    with (Demo.run "cat dog" (PBool true)).
  rewrite run_cat_dog. reflexivity.
Qed.

Lemma second_request_served_from_cache_witness :
  process_text_endpoint
    Demo.sent_tokenize Demo.word_tokenize Demo.stop_words (Some Demo.model) 1 2 3
    (request "cat dog" [])
    (<[Demo.cat_dog_key := Demo.cat_dog_entry 0]> (clean_expired_cache 0 ∅)) =
  (Result Demo.cat_dog true None,
   clean_expired_cache 1
     (<[Demo.cat_dog_key := Demo.cat_dog_entry 0]> (clean_expired_cache 0 ∅))).
Proof.
  refine (proj1 (proj2 (second_request_served_from_cache
            Demo.sent_tokenize Demo.word_tokenize Demo.stop_words (Some Demo.model)
            0 0 0 1 2 3 "cat dog" [] ∅ _ Demo.cat_dog (Some Demo.cat_dog_key)
            _ _ _)) _).
  - split; reflexivity.
  - exact first_request_cat_dog.
  - unfold Qle. simpl. lia.
  - reflexivity.
Defined.

(** C6, as stated, fails on the request for [cat dog] repeated one second
    later: both answers carry the same analysis, but the first one has a
    [cache_key] field and the cached one has none, so the two differ even
    with the [cached] indicator left out. Repeated after the hour instead,
    the request is computed afresh and answered with [cached = false]. *)
Lemma repeated_request_payload_differs :
  let first := Demo.endpoint 0 0 0 (request "cat dog" []) ∅ in
  let second := Demo.endpoint 1 1 1 (request "cat dog" []) first.2 in
  let late := Demo.endpoint 3600 3600 3600 (request "cat dog" []) first.2 in
  first.1 = Result Demo.cat_dog false (Some Demo.cat_dog_key) /\
  second.1 = Result Demo.cat_dog true None /\
  without_cached_flag second.1 <> without_cached_flag first.1 /\
  late.1 = Result Demo.cat_dog false (Some Demo.cat_dog_key).
Proof.
  vm_compute. repeat split. intros H. discriminate H.
Qed.

Lemma get_never_returns_expired_witness :
  let stale := <[Demo.cat_dog_key := Demo.cat_dog_entry 0]> ∅ in
  (exists msg, (get_cached 3600 3600 Demo.cat_dog_key stale).1 = Error 404 msg) /\
  (get_cached 3600 3600 Demo.cat_dog_key stale).2 !! Demo.cat_dog_key = None.
Proof.
  refine (proj1 (get_never_returns_expired
            Demo.sent_tokenize Demo.word_tokenize Demo.stop_words (Some Demo.model)
            3600 3600 3600 Demo.cat_dog_key
            (<[Demo.cat_dog_key := Demo.cat_dog_entry 0]> ∅) _) _).
  - unfold Qle. simpl. lia.
  - right. exists (Demo.cat_dog_entry 0). split.
    + apply lookup_insert_eq.
    + unfold Qle. simpl. lia.
Defined.

Lemma cache_hit_is_read_only_witness :
  (get_cached 10 20 Demo.cat_dog_key
     (<[Demo.cat_dog_key := Demo.cat_dog_entry 0]> ∅)).1 = Data Demo.cat_dog /\
  (get_cached 10 20 Demo.cat_dog_key
     (<[Demo.cat_dog_key := Demo.cat_dog_entry 0]> ∅)).2 !! Demo.cat_dog_key
    = Some (Demo.cat_dog_entry 0).
Proof.
  refine (proj1 (cache_hit_is_read_only
            Demo.sent_tokenize Demo.word_tokenize Demo.stop_words (Some Demo.model)
            10 20 Demo.cat_dog_key (Demo.cat_dog_entry 0)
            (<[Demo.cat_dog_key := Demo.cat_dog_entry 0]> ∅) _ _ _)).
  - apply lookup_insert_eq.
  - unfold Qle. simpl. lia.
  - reflexivity.
Defined.

(** ** The fingerprint *)

(** The digest on the one-block and two-block test messages of the
    standard, and the string that is hashed for a request with options. *)
Example sha256_one_block :
  SHA256.hexdigest "abc"
  = "ba7816bf8f01cfea414140de5dae2223b00361a396177a9cb410ff61f20015ad".
Proof. vm_compute. reflexivity. Qed.

Example sha256_two_blocks :
  SHA256.hexdigest "abcdbcdecdefdefgefghfghighijhijkijkljklmklmnlmnomnopnopq"
  = "248d6a61d20638b8e5c026930c3e6039a33ce45964ff2167f6ecedd419db06c1".
Proof. vm_compute. reflexivity. Qed.

Example hash_input_without_options :
  hash_input "cat dog" PNone = "cat dog{}" /\
  hash_input "cat dog" (PDict []) = "cat dog{}".
Proof. split; reflexivity. Qed.

Lemma dict_get_absent {V} k (d : list (string * V)) :
  k ∉ map fst d -> dict_get k d = None.
Proof.
  induction d as [|[k' v] d IH]; simpl; [done|].
  intros Hnotin. destruct (String.eqb_spec k' k) as [->|Hne].
  - exfalso. apply Hnotin. by apply elem_of_cons; left.
  - apply IH. intros Hin. apply Hnotin. by apply elem_of_cons; right.
Qed.

Lemma string_app_nil (b : string) : EmptyString +:+ b = b.
Proof. reflexivity. Qed.

Lemma string_app_cons x (a b : string) : String x a +:+ b = String x (a +:+ b).
Proof. reflexivity. Qed.

Lemma string_app_assoc (a b c : string) : (a +:+ b) +:+ c = a +:+ (b +:+ c).
Proof.
  induction a as [|x a IH]; [done|]. rewrite !string_app_cons. by rewrite IH.
Qed.

(** A literal can be read back, whatever follows it. *)
Lemma unescape_escape_char q c rest :
  q = "'"%char \/ q = PyRepr.dquote ->
  unescape q (PyRepr.escape_char q c +:+ rest)
  = match unescape q rest with
    | Some (t, rest') => Some (String c t, rest')
    | None => None
    end.
Proof.
  intros [-> | ->]; destruct c as [[] [] [] [] [] [] [] []]; reflexivity.
Qed.

Lemma unescape_escape q a rest :
  q = "'"%char \/ q = PyRepr.dquote ->
  unescape q (PyRepr.escape q a +:+ String q rest) = Some (a, rest).
Proof.
  intros Hq. induction a as [|c a IH].
  - cbn [PyRepr.escape]. rewrite string_app_nil. cbn [unescape].
    by rewrite Ascii.eqb_refl.
  - cbn [PyRepr.escape]. rewrite string_app_assoc, unescape_escape_char by done.
    by rewrite IH.
Qed.

Lemma quote_of_cases s :
  PyRepr.quote_of s = "'"%char \/ PyRepr.quote_of s = PyRepr.dquote.
Proof. unfold PyRepr.quote_of. destruct (_ && _); auto. Qed.

Lemma repr_str_prefix a b x y :
  PyRepr.repr_str a +:+ x = PyRepr.repr_str b +:+ y -> a = b /\ x = y.
Proof.
  unfold PyRepr.repr_str. cbv zeta. rewrite !string_app_cons.
  intros [= Hq Hbody]. rewrite !string_app_assoc in Hbody.
  rewrite !string_app_cons, !string_app_nil in Hbody.
  apply (f_equal (unescape (PyRepr.quote_of a))) in Hbody.
  rewrite unescape_escape in Hbody by apply quote_of_cases.
  rewrite Hq, unescape_escape in Hbody by apply quote_of_cases.
  by injection Hbody.
Qed.

Lemma repr_dict d : PyRepr.repr (PDict d) = "{" +:+ dict_items d +:+ "}".
Proof.
  cbn [PyRepr.repr]. reflexivity.
Qed.

Lemma dict_items_cons k x r :
  dict_items ((k, x) :: r) +:+ "}"
  = PyRepr.repr_str k +:+ ": " +:+ PyRepr.repr x +:+
    match r with [] => "}" | _ :: _ => ", " +:+ dict_items r +:+ "}" end.
Proof.
  destruct r as [|kv r]; cbn [dict_items]; by rewrite !string_app_assoc.
Qed.

Lemma same_items_tail k v v' (o1 o2 : list (string * PyVal)) :
  k ∉ map fst o1 -> k ∉ map fst o2 ->
  same_items ((k, v) :: o1) ((k, v') :: o2) -> v = v' /\ same_items o1 o2.
Proof.
  intros H1 H2 Hsame. split.
  - pose proof (Hsame k) as Hk. simpl in Hk. rewrite String.eqb_refl in Hk.
    by injection Hk.
  - intros k'. destruct (String.eqb_spec k k') as [<-|Hne].
    + by rewrite !dict_get_absent.
    + pose proof (Hsame k') as Hk'. simpl in Hk'.
      apply String.eqb_neq in Hne. by rewrite Hne in Hk'.
Qed.

(** Mappings with the same items are printed alike only in the same
    order. *)
Lemma dict_items_order (o1 o2 : list (string * PyVal)) :
  NoDup (map fst o1) -> NoDup (map fst o2) -> same_items o1 o2 ->
  dict_items o1 +:+ "}" = dict_items o2 +:+ "}" -> o1 = o2.
Proof.
  revert o2. induction o1 as [|[k v] o1 IH]; intros [|[k' v'] o2] Hnd1 Hnd2 Hsame.
  - done.
  - pose proof (Hsame k') as Hk. simpl in Hk. rewrite String.eqb_refl in Hk.
    discriminate Hk.
  - pose proof (Hsame k) as Hk. simpl in Hk. rewrite String.eqb_refl in Hk.
    discriminate Hk.
  - rewrite !dict_items_cons. intros Heq.
    apply repr_str_prefix in Heq as [<- Heq].
    simpl in Hnd1, Hnd2. inversion Hnd1 as [|? ? Hnot1 Hnd1']; subst.
    inversion Hnd2 as [|? ? Hnot2 Hnd2']; subst.
    destruct (same_items_tail k v v' o1 o2 Hnot1 Hnot2 Hsame) as [<- Hsame'].
    apply (inj (String.append ": ")) in Heq.
    apply (inj (String.append (PyRepr.repr v))) in Heq.
    f_equal. apply IH; [done|done|done|].
    destruct o1 as [|kv1 o1], o2 as [|kv2 o2]; [done| | |].
    + pose proof (Hsame' kv2.1) as Hk. destruct kv2 as [k2 v2]. simpl in Hk.
      rewrite String.eqb_refl in Hk. discriminate Hk.
    + pose proof (Hsame' kv1.1) as Hk. destruct kv1 as [k1 v1]. simpl in Hk.
      rewrite String.eqb_refl in Hk. discriminate Hk.
    + by apply (inj (String.append ", ")) in Heq.
Qed.

Lemma hash_input_dict text (o : list (string * PyVal)) :
  hash_input text (PDict o) = text +:+ PyRepr.str (PDict o).
Proof. by destruct o. Qed.

(** C3, as amended: for two options mappings that hold the same key-value
    pairs (distinct keys, written in ASCII), the string that is hashed, the
    text followed by [str(options)], is the same exactly when the two
    mappings list their keys in the same insertion order; each fingerprint
    is the SHA-256 digest of that string. Reordering the keys therefore
    always changes what is hashed. *)
Theorem hashed_string_same_iff_same_order text (o1 o2 : list (string * PyVal)) :
  NoDup (map fst o1) -> NoDup (map fst o2) -> same_items o1 o2 ->
  ascii_value (PDict o1) = true ->
  (hash_input text (PDict o1) = hash_input text (PDict o2) <-> o1 = o2) /\
  generate_cache_key text (PDict o1)
  = SHA256.hexdigest (text +:+ PyRepr.str (PDict o1)) /\
  generate_cache_key text (PDict o2)
  = SHA256.hexdigest (text +:+ PyRepr.str (PDict o2)).
Proof.
  intros Hnd1 Hnd2 Hsame _. unfold generate_cache_key. rewrite !hash_input_dict.
  split; [|done]. split; [|by intros ->].
  intros Heq. apply (inj (String.append text)) in Heq.
  cbn [PyRepr.str] in Heq. rewrite !repr_dict in Heq.
  apply (inj (String.append "{")) in Heq.
  by apply dict_items_order.
Qed.

Lemma hashed_string_same_iff_same_order_witness :
  hash_input "cat dog"
    (PDict [("include_embeddings", PBool true); ("lang", PStr "en")])
  = hash_input "cat dog"
      (PDict [("lang", PStr "en"); ("include_embeddings", PBool true)])
  <-> [("include_embeddings", PBool true); ("lang", PStr "en")]
      = [("lang", PStr "en"); ("include_embeddings", PBool true)].
Proof.
  refine (proj1 (hashed_string_same_iff_same_order "cat dog"
            [("include_embeddings", PBool true); ("lang", PStr "en")]
            [("lang", PStr "en"); ("include_embeddings", PBool true)] _ _ _ _)).
  - apply NoDup_cons. split; [|apply NoDup_singleton].
    intros Hin. apply list_elem_of_singleton in Hin. discriminate Hin.
  - apply NoDup_cons. split; [|apply NoDup_singleton].
    intros Hin. apply list_elem_of_singleton in Hin. discriminate Hin.
  - intros k. cbn [dict_get].
    destruct (String.eqb_spec "include_embeddings" k) as [H1|H1];
      destruct (String.eqb_spec "lang" k) as [H2|H2];
      try reflexivity. rewrite <- H1 in H2. discriminate H2.
  - reflexivity.
Defined.

(** C3, as stated, fails: the two mappings below hold the same two items,
    inserted in opposite orders, and their fingerprints for the text
    [cat dog] differ. *)
Lemma fingerprint_depends_on_key_order :
  let o1 := [("include_embeddings", PBool true); ("lang", PStr "en")] in
  let o2 := [("lang", PStr "en"); ("include_embeddings", PBool true)] in
  same_items o1 o2 /\
  hash_input "cat dog" (PDict o1) = "cat dog{'include_embeddings': True, 'lang': 'en'}" /\
  hash_input "cat dog" (PDict o2) = "cat dog{'lang': 'en', 'include_embeddings': True}" /\
  generate_cache_key "cat dog" (PDict o1) <> generate_cache_key "cat dog" (PDict o2).
Proof.
  split; [|split; [|split]].
  - intros k. cbn [dict_get].
    destruct (String.eqb_spec "include_embeddings" k) as [H1|H1];
      destruct (String.eqb_spec "lang" k) as [H2|H2];
      try reflexivity. rewrite <- H1 in H2. discriminate H2.
  - vm_compute. reflexivity.
  - vm_compute. reflexivity.
  - vm_compute. intros H. discriminate H.
Qed.

(** ** [process_text] without usable embeddings *)

Section EngineFacts.

Variable sent_tokenize : string -> list string.
Variable word_tokenize : string -> list string.
Variable stop_words : list string.

(** An embedding table that knows no word. *)
Lemma resolve_nothing dim (content_words : list string) :
  resolve (Some {| vector_size := dim; vectors := fun _ => None |}) content_words
  = ([], []).
Proof.
  induction content_words as [|w r IH]; simpl; [done|]. by rewrite IH.
Qed.

Lemma process_text_flag_off model text :
  process_text sent_tokenize word_tokenize stop_words model text (PBool false)
  = inl (UnboundLocalError "embeddings").
Proof. reflexivity. Qed.

Lemma process_text_model_missing text include_embeddings :
  process_text sent_tokenize word_tokenize stop_words None text include_embeddings
  = inl (UnboundLocalError "embeddings").
Proof. unfold process_text. destruct (truthy include_embeddings); reflexivity. Qed.

Lemma process_text_nothing_resolved dim text :
  process_text sent_tokenize word_tokenize stop_words
    (Some {| vector_size := dim; vectors := fun _ => None |}) text (PBool true)
  = inl (ValueError "not enough values to unpack (expected 2, got 1)").
Proof. unfold process_text. rewrite resolve_nothing. reflexivity. Qed.

(** C1 fails on the code: for every text, [process_text] raises instead of
    returning a result (i) when the caller passes
    [include_embeddings = False], whatever the model, (ii) when the model
    failed to load, whatever the flag, and (iii) when the model is loaded
    but resolves no word. In (i) and (ii) the list [embeddings] was never
    bound when line 180 reads it; in (iii) the empty list makes a
    one-dimensional array, which the index refuses. *)
Theorem process_text_raises_without_embeddings (text : string) :
  (forall model,
     process_text sent_tokenize word_tokenize stop_words model text (PBool false)
     = inl (UnboundLocalError "embeddings")) /\
  (forall include_embeddings,
     process_text sent_tokenize word_tokenize stop_words None text include_embeddings
     = inl (UnboundLocalError "embeddings")) /\
  (forall dim,
     process_text sent_tokenize word_tokenize stop_words
       (Some {| vector_size := dim; vectors := fun _ => None |}) text (PBool true)
     = inl (ValueError "not enough values to unpack (expected 2, got 1)")).
Proof.
  split; [|split].
  - intros model. apply process_text_flag_off.
  - intros inc. apply process_text_model_missing.
  - intros dim. apply process_text_nothing_resolved.
Qed.

(** The endpoint turns the exception into a 500 answer and stores nothing. *)
Lemma endpoint_fails_when_embeddings_disabled (t1 t2 t3 : Q) model text
    (cache : gmap string CacheEntry) :
  acceptable text ->
  cache !! generate_cache_key text (PDict [("include_embeddings", PBool false)]) = None ->
  process_text_endpoint sent_tokenize word_tokenize stop_words model t1 t2 t3
    (request text [("include_embeddings", PBool false)]) cache
  = (Failed (UnboundLocalError "embeddings"), clean_expired_cache t1 cache).
Proof.
  intros Hok Hnone. rewrite (endpoint_accepts _ _ _ _ _ _ _ _ _ _ Hok). cbv zeta.
  rewrite (sweep_lookup_None t1 cache _ Hnone).
  change (include_flag [("include_embeddings", PBool false)]) with (PBool false).
  by rewrite process_text_flag_off.
Qed.

End EngineFacts.
(** ** What a successful run of [process_text] returns *)

Lemma bind_inr {A B} (m : Py A) (k : A -> Py B) (b : B) :
  bind m k = inr b -> exists a, m = inr a /\ k a = inr b.
Proof. destruct m as [e|a]; simpl; [discriminate|]. intros H. by exists a. Qed.








Section Success.

Variable sent_tokenize : string -> list string.
Variable word_tokenize : string -> list string.
Variable stop_words : list string.
Variable word2vec_model : option KeyedVectors.

Lemma process_text_success text include_embeddings r :
  process_text sent_tokenize word_tokenize stop_words word2vec_model
    text include_embeddings = inr r ->
  let words := document_words word_tokenize text in
  let content_words := content_words_of stop_words words in
  truthy include_embeddings = true /\
  is_not_none word2vec_model = true /\
  top_words r =
    List.filter (fun wc => PyStr.mem (fst wc) content_words)
                (most_common 100 (Counter words)) /\
  word_dictionary r =
    map (fun wc => (fst wc,
                    word_entry stop_words word2vec_model include_embeddings
                               (length words) (fst wc) (snd wc)))
        (Counter words) /\
  exists D I,
    neighbors_loop 10 (snd (resolve word2vec_model content_words)) D I
    = inr (words_neighbors r).
Proof.
  intros H. unfold process_text in H. cbv zeta in H.
  fold (document_words word_tokenize text) in H.
  fold (content_words_of stop_words (document_words word_tokenize text)) in H.
  destruct (truthy include_embeddings) eqn:Hinc;
    destruct word2vec_model as [m|] eqn:Hm; try discriminate H.
  cbn [andb is_not_none] in H.
  apply bind_inr in H as (doc & _ & H).
  destruct (resolve (Some m) _) as [embs ws] eqn:Hres.
  apply bind_inr in H as (embs' & _ & H).
  apply bind_inr in H as (arr & _ & H).
  apply bind_inr in H as (m' & _ & H).
  apply bind_inr in H as (index & _ & H).
  apply bind_inr in H as ([D I] & _ & H).
  apply bind_inr in H as (ws' & Hws & H).
  apply bind_inr in H as (wn & Hwn & H).
  injection Hws as <-. injection H as <-. cbn [top_words word_dictionary words_neighbors].
  repeat split; try reflexivity.
  exists D, I. rewrite Hres. exact Hwn.
Qed.

End Success.
(** ** The frequency table and its ranking *)

Section Ranking.

Implicit Types (x y : string * nat) (l d : list (string * nat)).

Lemma insert_desc_perm x l : Permutation (insert_desc x l) (x :: l).
Proof.
  induction l as [|y r IH]; simpl; [done|].
  destruct (snd x <? snd y)%nat; [|done].
  rewrite IH. apply perm_swap.
Qed.

Lemma sorted_desc_perm d : Permutation (sorted_desc d) d.
Proof.
  induction d as [|x d IH]; simpl; [done|].
  rewrite insert_desc_perm. by constructor.
Qed.

Lemma insert_desc_sorted x l :
  StronglySorted by_count_desc l -> StronglySorted by_count_desc (insert_desc x l).
Proof.
  induction 1 as [|y r Hr IH Hy]; simpl.
  - repeat constructor.
  - destruct (Nat.ltb_spec (snd x) (snd y)) as [Hlt|Hge].
    + constructor; [done|].
      apply (Permutation_Forall (Permutation_sym (insert_desc_perm x r))).
      constructor; [unfold by_count_desc; lia|done].
    + constructor; [by constructor|].
      constructor; [done|].
      eapply Forall_impl; [exact Hy|]. unfold by_count_desc. intros z Hz. lia.
Qed.

Lemma sorted_desc_sorted d : StronglySorted by_count_desc (sorted_desc d).
Proof.
  induction d as [|x d IH]; simpl; [constructor|]. by apply insert_desc_sorted.
Qed.





End Ranking.


(** ** [Counter] *)

Lemma mem_In w (l : list string) : PyStr.mem w l = true <-> In w l.
Proof.
  induction l as [|x r IH]; simpl; [split; [discriminate|tauto]|].
  destruct (String.eqb_spec x w) as [->|Hne].
  - split; [by left|done].
  - rewrite IH. split; [by right|]. intros [?|?]; [congruence|done].
Qed.

Lemma mem_app w (l1 l2 : list string) :
  PyStr.mem w (l1 ++ l2) = PyStr.mem w l1 || PyStr.mem w l2.
Proof.
  induction l1 as [|x r IH]; simpl; [done|]. by destruct (String.eqb x w).
Qed.

Lemma counter_incr_keys w (d : list (string * nat)) :
  map fst (counter_incr w d) =
  if PyStr.mem w (map fst d) then map fst d else map fst d ++ [w].
Proof.
  induction d as [|[k c] d IH]; simpl; [done|].
  destruct (String.eqb k w); simpl; [done|].
  rewrite IH. by destruct (PyStr.mem w (map fst d)).
Qed.

Lemma counter_incr_get w k (d : list (string * nat)) :
  dict_get k (counter_incr w d) =
  if String.eqb w k
  then Some (S (match dict_get k d with Some c => c | None => 0 end))
  else dict_get k d.
Proof.
  induction d as [|[k0 c0] d IH]; simpl; [done|].
  destruct (String.eqb_spec k0 w) as [->|Hne]; simpl.
  - by destruct (String.eqb w k).
  - rewrite IH. destruct (String.eqb_spec k0 k) as [->|Hne']; [|done].
    destruct (String.eqb_spec w k) as [->|]; [congruence|done].
Qed.

Lemma Counter_keys_from (words : list string) (d : list (string * nat)) :
  map fst (fold_left (fun d w => counter_incr w d) words d) =
  fold_left (fun acc w => if PyStr.mem w acc then acc else acc ++ [w])
            words (map fst d).
Proof.
  revert d. induction words as [|w words IH]; intros d; simpl; [done|].
  by rewrite IH, counter_incr_keys.
Qed.

(** The keys of the table are the distinct words in first-seen order. *)
Lemma Counter_keys (words : list string) :
  map fst (Counter words) = first_seen words.
Proof. apply (Counter_keys_from words []). Qed.

Lemma Counter_get_from (words : list string) (d : list (string * nat)) k :
  dict_get k (fold_left (fun d w => counter_incr w d) words d) =
  match count_occ string_dec words k, dict_get k d with
  | O, o => o
  | S n, Some c => Some (S n + c)%nat
  | S n, None => Some (S n)
  end.
Proof.
  revert d. induction words as [|w words IH]; intros d; simpl.
  - by destruct (dict_get k d).
  - rewrite IH, counter_incr_get.
    destruct (string_dec w k) as [->|Hne].
    + rewrite String.eqb_refl.
      destruct (count_occ string_dec words k), (dict_get k d); f_equal; lia.
    + apply String.eqb_neq in Hne. by rewrite Hne.
Qed.

(** Each key is stored with its number of occurrences. *)
Lemma Counter_get (words : list string) k :
  dict_get k (Counter words) =
  match count_occ string_dec words k with
  | O => None
  | S n => Some (S n)
  end.
Proof.
  unfold Counter. rewrite Counter_get_from. simpl.
  by destruct (count_occ string_dec words k).
Qed.

Lemma first_seen_from_NoDup (words acc : list string) :
  NoDup acc ->
  NoDup (fold_left (fun acc w => if PyStr.mem w acc then acc else acc ++ [w])
                        words acc).
Proof.
  revert acc. induction words as [|w words IH]; intros acc Hnd; simpl; [done|].
  apply IH. destruct (PyStr.mem w acc) eqn:Hmem; [done|].
  apply NoDup_app; split; [done|]. split; [|apply NoDup_singleton].
  intros x Hx Hxw. apply list_elem_of_singleton in Hxw as ->.
  apply list_elem_of_In, mem_In in Hx. congruence.
Qed.

Lemma In_dict_get {V} k (v : V) (d : list (string * V)) :
  NoDup (map fst d) -> In (k, v) d -> dict_get k d = Some v.
Proof.
  induction d as [|[k0 v0] d IH]; simpl; [done|].
  intros Hnd [Heq|Hin].
  - injection Heq as -> ->. by rewrite String.eqb_refl.
  - apply NoDup_cons in Hnd as [Hnotin Hnd].
    destruct (String.eqb_spec k0 k) as [->|Hne]; [|by apply IH].
    exfalso. apply Hnotin. apply list_elem_of_In.
    apply in_map_iff. by exists (k, v).
Qed.

Lemma Counter_In (words : list string) w c :
  In (w, c) (Counter words) ->
  c = count_occ string_dec words w /\ (0 < c)%nat /\ In w words.
Proof.
  intros Hin. apply In_dict_get in Hin.
  - rewrite Counter_get in Hin.
    destruct (count_occ string_dec words w) as [|n] eqn:Hc; [discriminate|].
    injection Hin as <-. split; [done|]. split; [lia|].
    apply (count_occ_In string_dec). lia.
  - rewrite Counter_keys. apply first_seen_from_NoDup. constructor.
Qed.

(** ** The result of a successful analysis *)

Lemma dict_get_map {V W} (g : string -> V -> W) k (d : list (string * V)) :
  dict_get k (map (fun kv => (fst kv, g (fst kv) (snd kv))) d) =
  match dict_get k d with
  | Some v => Some (g k v)
  | None => None
  end.
Proof.
  induction d as [|[k0 v0] d IH]; simpl; [done|].
  destruct (String.eqb_spec k0 k) as [->|Hne]; [done|apply IH].
Qed.

Lemma In_firstn {A} n (l : list A) x : In x (firstn n l) -> In x l.
Proof.
  revert n. induction l as [|y l IH]; intros [|n]; simpl; try done.
  intros [?|?]; [by left|right; by apply (IH n)].
Qed.


Section Results.

Variable sent_tokenize : string -> list string.
Variable word_tokenize : string -> list string.
Variable stop_words : list string.
Variable word2vec_model : option KeyedVectors.

Local Abbreviation analyse :=
  (process_text sent_tokenize word_tokenize stop_words word2vec_model).

(** No record of the dictionary is ever given [embedding_available = True]:
    the key is set, to [False], only when the lookup fails. *)
Lemma word_entry_never_available include_embeddings word_count w c :
  embedding_available
    (word_entry stop_words word2vec_model include_embeddings word_count w c)
  <> Some true.
Proof.
  unfold word_entry.
  destruct (truthy include_embeddings); [|discriminate].
  destruct (get_word_embedding word2vec_model w); discriminate.
Qed.




End Results.

(** ** The claims about the neighbour index and [top_words], on runs *)



(** C2 fails on the code. For the text [cat dog], whose two words are both
    indexed, each neighbour list has 9 entries where the claim gives
    min(10 - 1, 2 - 1) = 1: the real neighbour is followed by 8 entries
    read from the unfilled slots of the search, whose position [-1]
    selects the last indexed word, at the largest float distance. For
    [dog], the last word, these entries name [dog] itself. *)
Theorem neighbour_lists_of_two_indexed_words :
  Demo.run "cat dog" (PBool true) = inr Demo.cat_dog /\
  snd (resolve (Some Demo.model)
         (content_words_of Demo.stop_words
            (document_words Demo.word_tokenize "cat dog"))) = ["cat"; "dog"] /\
  dict_get "cat" (words_neighbors Demo.cat_dog)
    = Some ({| word := "dog"; distance := 5%Q |} :: Demo.unfilled "dog") /\
  dict_get "dog" (words_neighbors Demo.cat_dog)
    = Some ({| word := "cat"; distance := 5%Q |} :: Demo.unfilled "dog") /\
  length ({| word := "cat"; distance := 5%Q |} :: Demo.unfilled "dog") = 9%nat /\
  Nat.min (10 - 1) (2 - 1) = 1%nat /\
  In {| word := "dog"; distance := Faiss.FLT_MAX |} (Demo.unfilled "dog").
Proof.
  split; [exact run_cat_dog|].
  repeat split; try (vm_compute; reflexivity). by left.
Qed.

(** A word that occurs more than once is indexed once per occurrence, and
    its other occurrences are reported among its neighbours at distance 0,
    also when ten or more words are indexed. *)
Example repeated_word_is_its_own_neighbour :
  exists r ns,
    Demo.run "cat dog fish cat dog fish cat dog fish cat dog" (PBool true) = inr r /\
    dict_get "cat" (words_neighbors r) = Some ns /\
    nth_error ns 0 = Some {| word := "cat"; distance := 0%Q |}.
Proof.
  eexists _, _. split; [vm_compute; reflexivity|].
  split; vm_compute; reflexivity.
Qed.

(** C5 fails on the code: no record of [word_dictionary] ever has
    [embedding_available = True]. A word with a vector gets the keys
    [embedding] and [embedding_dim] only; so for the text [cat dog], [cat]
    is a key of [words_neighbors] while its record has no
    [embedding_available] key. *)
Theorem indexed_words_lack_embedding_available :
  (forall stop_words model include_embeddings word_count w c,
     embedding_available
       (word_entry stop_words model include_embeddings word_count w c)
     <> Some true) /\
  Demo.run "cat dog" (PBool true) = inr Demo.cat_dog /\
  dict_get "cat" (words_neighbors Demo.cat_dog) <> None /\
  option_map embedding_available (dict_get "cat" (word_dictionary Demo.cat_dog))
    = Some None.
Proof.
  split; [intros; apply word_entry_never_available|].
  split; [exact run_cat_dog|].
  split; [vm_compute; discriminate|vm_compute; reflexivity].
Qed.

(** ** More on the sweep and the health check *)

Section SweepFacts.

Implicit Types (cache : gmap string CacheEntry) (k : string) (e : CacheEntry).

Lemma sweep_subseteq (now : Q) cache : clean_expired_cache now cache ⊆ cache.
Proof.
  apply map_subseteq_spec. intros k e. apply sweep_lookup_Some.
Qed.

Lemma sweep_lookup_live (now : Q) cache k e :
  clean_expired_cache now cache !! k = Some e -> (now <= expires_at e)%Q.
Proof.
  rewrite clean_expired_cache_lookup.
  destruct (cache !! k) as [e'|]; [|done].
  unfold py_gt. destruct (Qle_bool now (expires_at e')) eqn:Hle; [|done].
  intros [= <-]. by apply Qle_bool_iff.
Qed.

Lemma sweep_unchanged_iff (now : Q) cache :
  clean_expired_cache now cache = cache <->
  forall k e, cache !! k = Some e -> (now <= expires_at e)%Q.
Proof.
  split.
  - intros Heq k e Hk. rewrite <- Heq in Hk. by apply (sweep_lookup_live now cache k).
  - intros Hlive. apply map_eq. intros k.
    destruct (cache !! k) as [e|] eqn:Hk.
    + apply sweep_keeps_unexpired; [done|by apply (Hlive k)].
    + by apply sweep_lookup_None.
Qed.

(** The sweep only removes: what it leaves is a part of the cache, every
    entry it leaves expires at or after the time of the sweep, and it
    leaves the cache as it is exactly when no entry has expired. *)
Theorem sweep_only_removes_expired (now : Q) cache :
  clean_expired_cache now cache ⊆ cache /\
  (size (clean_expired_cache now cache) <= size cache)%nat /\
  (forall k e, clean_expired_cache now cache !! k = Some e ->
               cache !! k = Some e /\ (now <= expires_at e)%Q) /\
  (clean_expired_cache now cache = cache <->
   forall k e, cache !! k = Some e -> (now <= expires_at e)%Q).
Proof.
  split; [apply sweep_subseteq|].
  split; [apply map_subseteq_size, sweep_subseteq|].
  split; [|apply sweep_unchanged_iff].
  intros k e H. split; [by apply (sweep_lookup_Some now)|].
  by apply (sweep_lookup_live now cache k).
Qed.

(** Sweeping twice is sweeping once at the later time; in particular the
    sweep is idempotent. *)
Theorem sweep_twice (t t' : Q) cache :
  (t <= t')%Q ->
  clean_expired_cache t' (clean_expired_cache t cache) = clean_expired_cache t' cache.
Proof.
  intros Hle. apply map_eq. intros k.
  rewrite !clean_expired_cache_lookup.
  destruct (cache !! k) as [e|]; [|done].
  destruct (py_gt t (expires_at e)) eqn:Ht; [|done].
  assert (Ht' : py_gt t' (expires_at e) = true).
  { rewrite py_gt_lt in *. apply py_lt_spec. apply py_lt_spec in Ht.
    by apply Qlt_le_trans with t. }
  by rewrite Ht'.
Qed.

(** [health_check] reports the number of entries left by its own sweep,
    which never exceeds the number before, and equals it exactly when no
    entry had expired. *)
Theorem health_check_counts_live_entries (model : option KeyedVectors)
    (now : Q) cache :
  (health_check model now cache).2 = clean_expired_cache now cache /\
  cache_size (health_check model now cache).1 = size (health_check model now cache).2 /\
  (cache_size (health_check model now cache).1 <= size cache)%nat /\
  (cache_size (health_check model now cache).1 = size cache <->
   forall k e, cache !! k = Some e -> (now <= expires_at e)%Q) /\
  (word2vec_loaded (health_check model now cache).1 = true <-> model <> None).
Proof.
  unfold health_check. simpl.
  pose proof (sweep_subseteq now cache) as Hsub.
  pose proof (map_subseteq_size _ _ Hsub) as Hsize.
  split; [done|]. split; [done|]. split; [done|]. split.
  - split.
    + intros Heq. apply sweep_unchanged_iff. apply map_subseteq_size_eq; [done|lia].
    + intros Hlive. apply sweep_unchanged_iff in Hlive. by rewrite Hlive.
  - destruct model; simpl; split; try done.
Qed.

End SweepFacts.

(** ** What a request does to the cache *)

Section RequestFacts.

Variable sent_tokenize : string -> list string.
Variable word_tokenize : string -> list string.
Variable stop_words : list string.
Variable word2vec_model : option KeyedVectors.

Local Abbreviation endpoint :=
  (process_text_endpoint sent_tokenize word_tokenize stop_words word2vec_model).
Local Abbreviation analyse :=
  (process_text sent_tokenize word_tokenize stop_words word2vec_model).

Implicit Types (cache : gmap string CacheEntry).

(** The ways a request can end: refused before the cache is looked at,
    served from the cache, computed and stored, or failed in the
    analysis. *)
Lemma endpoint_cases (t_sweep t_check t_store : Q) json cache :
  let out := endpoint t_sweep t_check t_store json cache in
  let swept := clean_expired_cache t_sweep cache in
  (exists msg, out = (Error 400 msg, cache)) \/
  (exists err, out = (Failed err, cache)) \/
  (exists text opts e,
     let key := generate_cache_key text (PDict opts) in
     swept !! key = Some e /\ (t_check < expires_at e)%Q /\
     out = (Result (data e) true None, swept)) \/
  (exists text opts,
     let key := generate_cache_key text (PDict opts) in
     (forall e, swept !! key = Some e -> (expires_at e <= t_check)%Q) /\
     ((exists r, analyse text (include_flag opts) = inr r /\
                 out = (Result r false (Some key),
                        <[key := {| data := r;
                                    expires_at := (t_store + CACHE_TTL)%Q |}]> swept)) \/
      (exists err, analyse text (include_flag opts) = inl err /\
                   out = (Failed err, swept)))).
Proof.
  intros out swept. subst out. unfold process_text_endpoint.
  destruct json as [[|f fs]|]. 1,3: left; eauto.
  destruct (dict_get "text" (f :: fs)) as [[| | |text| |]|];
    try (left; eexists; reflexivity).
  destruct (5 * 1024 * 1024 <? Z.of_nat (PyStr.len text)); [left; eauto|].
  destruct (Nat.eqb (PyStr.len (PyStr.strip text)) 0); [left; eauto|].
  destruct (match dict_get "options" (f :: fs) with Some o => o | None => PDict [] end)
    as [| | | | |opts]; try (right; left; eexists; reflexivity).
  fold (include_flag opts). fold swept.
  set (key := generate_cache_key text (PDict opts)).
  assert (Hmiss :
    (forall e, swept !! key = Some e -> (expires_at e <= t_check)%Q) ->
    let miss :=
      match analyse text (include_flag opts) with
      | inr result =>
          (Result result false (Some key),
           <[key := {| data := result; expires_at := (t_store + CACHE_TTL)%Q |}]> swept)
      | inl e => (Failed e, swept)
      end in
    exists text opts,
      let key := generate_cache_key text (PDict opts) in
      (forall e, swept !! key = Some e -> (expires_at e <= t_check)%Q) /\
      ((exists r, analyse text (include_flag opts) = inr r /\
                  miss = (Result r false (Some key),
                          <[key := {| data := r;
                                      expires_at := (t_store + CACHE_TTL)%Q |}]> swept)) \/
       (exists err, analyse text (include_flag opts) = inl err /\
                    miss = (Failed err, swept)))).
  { intros Hexp miss. exists text, opts. split; [exact Hexp|]. subst miss.
    destruct (analyse text (include_flag opts)) as [err|r]; [right|left]; eauto. }
  destruct (swept !! key) as [e|] eqn:Hk.
  - destruct (py_lt t_check (expires_at e)) eqn:Hlt.
    + right; right; left. exists text, opts, e. fold key.
      split; [done|]. split; [by apply py_lt_spec|done].
    + right; right; right. apply Hmiss. intros e' [= <-].
      apply Qnot_lt_le. intros H. apply py_lt_spec in H. congruence.
  - right; right; right. apply Hmiss. intros e' [=].
Qed.

(** Nothing is stored unless an analysis was computed: a refused request
    (always status 400) leaves the cache exactly as it was, not even swept;
    a failed request and a request served from the cache leave a part of
    it. *)
Theorem only_computed_results_are_stored (t_sweep t_check t_store : Q) json cache :
  let out := endpoint t_sweep t_check t_store json cache in
  (forall status msg, out.1 = Error status msg -> status = 400%nat /\ out.2 = cache) /\
  (forall err, out.1 = Failed err -> out.2 ⊆ cache) /\
  (forall body ck, out.1 = Result body true ck -> out.2 ⊆ cache) /\
  (forall body, out.1 <> Data body) /\ (forall msg, out.1 <> Message msg).
Proof.
  intros out.
  destruct (endpoint_cases t_sweep t_check t_store json cache)
    as [[msg H]|[[err H]|[(text & opts & e & _ & _ & H)|(text & opts & _ & [(r & _ & H)|(err & _ & H)])]]];
    fold out in H; rewrite H; simpl;
    (split; [|split; [|split; [|split]]]); try discriminate;
    try (intros ? ? [=]; subst); try (intros ? [=]; subst); try done;
    try apply sweep_subseteq.
Qed.

(** A request changes at most the entry of its own fingerprint: every entry
    found afterwards was there before, unless it is the entry of the result
    just computed, which expires [CACHE_TTL] after the time it was stored;
    and every entry that had not expired when the request swept the cache
    is still there, unless the request computed a new result for its
    key. *)
Theorem request_changes_at_most_its_own_entry (t_sweep t_check t_store : Q)
    json cache :
  let out := endpoint t_sweep t_check t_store json cache in
  (forall k e, out.2 !! k = Some e ->
     cache !! k = Some e \/
     (out.1 = Result (data e) false (Some k) /\
      expires_at e = (t_store + CACHE_TTL)%Q)) /\
  (forall k e, cache !! k = Some e -> (t_sweep <= expires_at e)%Q ->
     out.2 !! k = Some e \/ exists r, out.1 = Result r false (Some k)).
Proof.
  intros out.
  destruct (endpoint_cases t_sweep t_check t_store json cache)
    as [[msg H]|[[err H]|[(text & opts & e & _ & _ & H)|(text & opts & _ & [(r & _ & H)|(err & _ & H)])]]];
    fold out in H; rewrite H; simpl; split; intros k e0 Hk; try (by left).
  - left. by apply (sweep_lookup_Some t_sweep).
  - intros Hlive. left. by apply sweep_keeps_unexpired.
  - destruct (decide (generate_cache_key text (PDict opts) = k)) as [<-|Hne].
    + rewrite lookup_insert_eq in Hk. injection Hk as <-. by right.
    + rewrite lookup_insert_ne in Hk by done. left.
      by apply (sweep_lookup_Some t_sweep).
  - intros Hlive.
    destruct (decide (generate_cache_key text (PDict opts) = k)) as [<-|Hne].
    + right. by exists r.
    + left. rewrite lookup_insert_ne by done. by apply sweep_keeps_unexpired.
  - left. by apply (sweep_lookup_Some t_sweep).
  - intros Hlive. left. by apply sweep_keeps_unexpired.
Qed.

(** Store and fetch: the [cache_key] returned with a computed result,
    handed to [get_cached] before the entry expires, brings back exactly
    that result; at or after the expiry instant it brings 404 and the
    entry is gone. *)
Theorem computed_result_can_be_fetched (t_sweep t_check t_store : Q) json
    cache cache1 r ck :
  endpoint t_sweep t_check t_store json cache = (Result r false ck, cache1) ->
  exists key,
    ck = Some key /\
    (forall t4 t5, (t4 <= t5)%Q -> (t5 < t_store + CACHE_TTL)%Q ->
       get_cached t4 t5 key cache1 = (Data r, clean_expired_cache t4 cache1)) /\
    (forall t4 t5, (t_store + CACHE_TTL <= t5)%Q ->
       (exists msg, (get_cached t4 t5 key cache1).1 = Error 404 msg) /\
       (get_cached t4 t5 key cache1).2 !! key = None).
Proof.
  intros Hout.
  destruct (endpoint_cases t_sweep t_check t_store json cache)
    as [[msg H]|[[err H]|[(text & opts & e & _ & _ & H)|(text & opts & _ & [(r' & _ & H)|(err & _ & H)])]]];
    rewrite Hout in H; try discriminate H.
  injection H as -> -> ->.
  set (key := generate_cache_key text (PDict opts)).
  set (entry := {| data := r'; expires_at := (t_store + CACHE_TTL)%Q |}).
  assert (Hentry : <[key := entry]> (clean_expired_cache t_sweep cache) !! key
                   = Some entry) by apply lookup_insert_eq.
  exists key. split; [done|]. split.
  - intros t4 t5 H45 H5. unfold get_cached.
    rewrite (sweep_keeps_unexpired t4 _ _ _ Hentry).
    + rewrite py_ge_lt. apply py_lt_spec in H5. simpl. by rewrite H5.
    + simpl. apply Qlt_le_weak. by apply Qle_lt_trans with t5.
  - intros t4 t5 H5.
    assert (Hsw : clean_expired_cache t4
                    (<[key := entry]> (clean_expired_cache t_sweep cache)) !! key
                  = if py_gt t4 (t_store + CACHE_TTL) then None else Some entry).
    { by rewrite clean_expired_cache_lookup, Hentry. }
    unfold get_cached. rewrite Hsw.
    destruct (py_gt t4 (t_store + CACHE_TTL)); simpl.
    + split; [eauto|exact Hsw].
    + apply py_ge_spec in H5. rewrite H5. simpl. split; [eauto|].
      apply lookup_delete_eq.
Qed.

(** Deleting the fingerprint undoes the caching: after a computed request
    and a [delete_cached] of its key, the key is reported deleted, a second
    delete and a fetch both answer 404, and the same request is computed
    and stored again. *)
Theorem delete_forces_recomputation (t1 t2 t3 t4 t5 t6 : Q) text opts
    cache cache1 r ck :
  acceptable text ->
  endpoint t1 t2 t3 (request text opts) cache = (Result r false ck, cache1) ->
  let key := generate_cache_key text (PDict opts) in
  let cache2 := (delete_cached key cache1).2 in
  (delete_cached key cache1).1 = Message "Cache entry deleted" /\
  (delete_cached key cache2).1 = Error 404 "Cache entry not found" /\
  (get_cached t4 t5 key cache2).1 = Error 404 "Cache entry not found or expired" /\
  endpoint t4 t5 t6 (request text opts) cache2 =
    (Result r false ck,
     <[key := {| data := r; expires_at := (t6 + CACHE_TTL)%Q |}]>
       (clean_expired_cache t4 cache2)).
Proof.
  intros Hok Hout key cache2.
  rewrite (endpoint_accepts _ _ _ _ _ _ _ _ _ _ Hok) in Hout. cbv zeta in Hout.
  fold key in Hout.
  assert (Hrun : analyse text (include_flag opts) = inr r /\ ck = Some key /\
                 is_Some (cache1 !! key)).
  { destruct (clean_expired_cache t1 cache !! key) as [e|].
    - destruct (py_lt t2 (expires_at e)); [discriminate|].
      destruct (analyse text (include_flag opts)); [discriminate|].
      injection Hout as <- <- <-. rewrite lookup_insert_eq. eauto.
    - destruct (analyse text (include_flag opts)); [discriminate|].
      injection Hout as <- <- <-. rewrite lookup_insert_eq. eauto. }
  destruct Hrun as (Hrun & -> & [e He]).
  assert (Hgone : cache2 !! key = None).
  { subst cache2. unfold delete_cached. rewrite He. simpl. apply lookup_delete_eq. }
  split; [unfold delete_cached; by rewrite He|].
  split; [unfold delete_cached; by rewrite Hgone|].
  split; [unfold get_cached; by rewrite (sweep_lookup_None _ _ _ Hgone)|].
  rewrite (endpoint_accepts _ _ _ _ _ _ _ _ _ _ Hok). cbv zeta. fold key.
  by rewrite (sweep_lookup_None _ _ _ Hgone), Hrun.
Qed.

(** [get_cached] removes expired entries only: what it leaves is a part of
    the cache, and every entry that has not expired at the time of its
    sweep stays, the requested one provided it has not expired at the time
    of the check either. *)
Theorem get_cached_removes_only_expired (t_sweep t_check : Q) fp cache :
  (get_cached t_sweep t_check fp cache).2 ⊆ cache /\
  (forall k e, cache !! k = Some e -> (t_sweep <= expires_at e)%Q ->
     k <> fp \/ (t_check < expires_at e)%Q ->
     (get_cached t_sweep t_check fp cache).2 !! k = Some e).
Proof.
  unfold get_cached. split.
  - destruct (clean_expired_cache t_sweep cache !! fp) as [e|]; simpl;
      [|apply sweep_subseteq].
    destruct (py_ge t_check (expires_at e)); simpl; [|apply sweep_subseteq].
    etransitivity; [apply delete_subseteq|apply sweep_subseteq].
  - intros k e Hk Hlive Hkeep.
    pose proof (sweep_keeps_unexpired t_sweep cache k e Hk Hlive) as Hswept.
    destruct (clean_expired_cache t_sweep cache !! fp) as [e'|] eqn:Hfp; simpl;
      [|done].
    rewrite py_ge_lt.
    destruct (py_lt t_check (expires_at e')) eqn:Hlt; simpl; [done|].
    destruct (decide (k = fp)) as [->|Hne].
    + rewrite Hswept in Hfp. injection Hfp as <-.
      destruct Hkeep as [?|Hkeep]; [done|]. apply py_lt_spec in Hkeep. congruence.
    + by rewrite lookup_delete_ne.
Qed.

End RequestFacts.

(** ** Uploads *)

Section UploadFacts.

Variable sent_tokenize : string -> list string.
Variable word_tokenize : string -> list string.
Variable stop_words : list string.
Variable word2vec_model : option KeyedVectors.
Variable secure_filename : string -> string.
Variable json_loads : string -> Py PyVal.

Local Abbreviation endpoint :=
  (process_text_endpoint sent_tokenize word_tokenize stop_words word2vec_model).
Local Abbreviation upload :=
  (process_file_endpoint sent_tokenize word_tokenize stop_words word2vec_model
     secure_filename json_loads).

Implicit Types (cache : gmap string CacheEntry).

Lemma upload_accepts (t_sweep t_check t_store : Q) file form_options opts cache :
  filename file <> EmptyString ->
  allowed_file (filename file) = true ->
  utf8_valid (content file) = true ->
  (5 * 1024 * 1024 <? Z.of_nat (PyStr.len (content file))) = false ->
  upload_options json_loads form_options opts ->
  upload t_sweep t_check t_store (Some file) form_options cache =
  let text := content file in
  let cache_key := generate_cache_key text (PDict opts) in
  let swept := clean_expired_cache t_sweep cache in
  let miss :=
    match process_text sent_tokenize word_tokenize stop_words word2vec_model
            text (include_flag opts) with
    | inr result =>
        (Uploaded result false (Some cache_key) (secure_filename (filename file)),
         <[cache_key := {| data := result;
                           expires_at := (t_store + CACHE_TTL)%Q |}]> swept)
    | inl e => (FileFailed e, swept)
    end in
  match swept !! cache_key with
  | Some entry =>
      if py_lt t_check (expires_at entry)
      then (Uploaded (data entry) true None (secure_filename (filename file)), swept)
      else miss
  | None => miss
  end.
Proof.
  intros Hname Hallowed Hutf Hsize Hopts. unfold process_file_endpoint.
  apply String.eqb_neq in Hname. rewrite Hname, Hallowed, Hutf, Hsize. simpl.
  destruct form_options as [raw|]; simpl in Hopts.
  - by rewrite Hopts.
  - by subst opts.
Qed.

(** The two endpoints share the cache: once a text request has been
    computed and stored, an upload of a file with an allowed name that
    holds the same text, with the same options, is served from the cache
    until the entry expires, under the sanitised file name and without
    [cache_key]. *)
Theorem upload_served_from_text_request (t1 t2 t3 t4 t5 t6 : Q) text opts
    file form_options cache cache1 r ck :
  acceptable text ->
  endpoint t1 t2 t3 (request text opts) cache = (Result r false ck, cache1) ->
  filename file <> EmptyString ->
  allowed_file (filename file) = true ->
  content file = text ->
  utf8_valid text = true ->
  upload_options json_loads form_options opts ->
  (t4 <= t5)%Q -> (t5 < t3 + CACHE_TTL)%Q ->
  upload t4 t5 t6 (Some file) form_options cache1 =
  (Uploaded r true None (secure_filename (filename file)),
   clean_expired_cache t4 cache1).
Proof.
  intros Hok Hout Hname Hallowed Hcontent Hutf Hopts H45 H5.
  assert (Hentry : cache1 !! generate_cache_key text (PDict opts)
                   = Some {| data := r; expires_at := (t3 + CACHE_TTL)%Q |}).
  { rewrite (endpoint_accepts _ _ _ _ _ _ _ _ _ _ Hok) in Hout. cbv zeta in Hout.
    destruct (clean_expired_cache t1 cache !! generate_cache_key text (PDict opts))
      as [e|].
    - destruct (py_lt t2 (expires_at e)); [discriminate|].
      destruct (process_text _ _ _ _ _ _); [discriminate|].
      injection Hout as <- _ <-. apply lookup_insert_eq.
    - destruct (process_text _ _ _ _ _ _); [discriminate|].
      injection Hout as <- _ <-. apply lookup_insert_eq. }
  destruct Hok as [Hsize _]. subst text.
  rewrite (upload_accepts _ _ _ _ _ opts _ Hname Hallowed Hutf Hsize Hopts).
  cbv zeta. rewrite (sweep_keeps_unexpired t4 _ _ _ Hentry); simpl.
  - apply py_lt_spec in H5. by rewrite H5.
  - apply Qlt_le_weak. by apply Qle_lt_trans with t5.
Qed.

(** A refused upload (always status 400) leaves the cache exactly as it
    was; an upload that fails, or is served from the cache, leaves a part
    of it. *)
Theorem refused_upload_leaves_cache (t_sweep t_check t_store : Q) file
    form_options cache :
  let out := upload t_sweep t_check t_store file form_options cache in
  (forall status msg, out.1 = FileError status msg ->
     status = 400%nat /\ out.2 = cache) /\
  (forall err, out.1 = FileFailed err -> out.2 ⊆ cache) /\
  (forall body ck name, out.1 = Uploaded body true ck name ->
     ck = None /\ out.2 ⊆ cache).
Proof.
  intros out. subst out. unfold process_file_endpoint.
  destruct file as [file|]; [|simpl; by repeat split; intros; simplify_eq].
  destruct (String.eqb (filename file) EmptyString);
    [simpl; by repeat split; intros; simplify_eq|].
  destruct (allowed_file (filename file));
    [|simpl; by repeat split; intros; simplify_eq].
  destruct (utf8_valid (content file));
    [|simpl; by repeat split; intros; simplify_eq].
  cbn [negb].
  destruct (5 * 1024 * 1024 <? Z.of_nat (PyStr.len (content file)));
    [simpl; by repeat split; intros; simplify_eq|].
  destruct (match form_options with Some raw => json_loads raw | None => ret (PDict []) end)
    as [err|[| | | | |opts]];
    try (simpl; by repeat split; intros; simplify_eq).
  set (key := generate_cache_key (content file) (PDict opts)).
  pose proof (sweep_subseteq t_sweep cache) as Hsub.
  destruct (clean_expired_cache t_sweep cache !! key) as [e|].
  - destruct (py_lt t_check (expires_at e)).
    + simpl. repeat split; intros; simplify_eq; done.
    + destruct (process_text _ _ _ _ _ _); simpl;
        repeat split; intros; simplify_eq; done.
  - destruct (process_text _ _ _ _ _ _); simpl;
      repeat split; intros; simplify_eq; done.
Qed.

End UploadFacts.

(** ** File names *)

Lemma rsplit_dot_without_dot (s : string) :
  PyRepr.contains "." s = false -> rsplit_dot s = [s].
Proof.
  induction s as [|c r IH]; simpl; [done|].
  destruct (Ascii.eqb c ".") eqn:Hc; [discriminate|].
  intros Hr. by rewrite (IH Hr).
Qed.

Lemma rsplit_dot_with_dot (s : string) :
  PyRepr.contains "." s = true ->
  exists stem ext,
    rsplit_dot s = [stem; ext] /\ s = stem +:+ String "." ext /\
    PyRepr.contains "." ext = false.
Proof.
  induction s as [|c r IH]; simpl; [discriminate|].
  destruct (PyRepr.contains "." r) eqn:Hr.
  - intros _. destruct (IH eq_refl) as (stem & ext & Hsplit & -> & Hext).
    rewrite Hsplit. exists (String c stem), ext. by destruct (Ascii.eqb c ".").
  - destruct (Ascii.eqb_spec c ".") as [->|Hc]; [|discriminate].
    intros _. rewrite (rsplit_dot_without_dot r Hr). by exists EmptyString, r.
Qed.

Lemma rsplit_dot_app (stem ext : string) :
  PyRepr.contains "." ext = false ->
  rsplit_dot (stem +:+ String "." ext) = [stem; ext].
Proof.
  intros Hext. induction stem as [|c stem IH]; simpl.
  - by rewrite (rsplit_dot_without_dot ext Hext).
  - by rewrite IH.
Qed.

Lemma contains_app c (s1 s2 : string) :
  PyRepr.contains c (s1 +:+ s2) = PyRepr.contains c s1 || PyRepr.contains c s2.
Proof.
  induction s1 as [|a s1 IH]; simpl; [done|]. by destruct (Ascii.eqb a c).
Qed.

(** [allowed_file] looks at the text after the last dot only, and without
    regard to case: a name is allowed exactly when it is [stem.ext] with a
    dot-free [ext] whose lower-case form is one of the six extensions; a
    name without a dot is never allowed. *)
Theorem allowed_file_checks_last_extension :
  (forall stem ext,
     PyRepr.contains "." ext = false ->
     allowed_file (stem +:+ String "." ext)
     = PyStr.mem (PyStr.lower ext) ALLOWED_EXTENSIONS) /\
  (forall name, PyRepr.contains "." name = false -> allowed_file name = false) /\
  (forall name,
     allowed_file name = true <->
     exists stem ext,
       name = stem +:+ String "." ext /\ PyRepr.contains "." ext = false /\
       In (PyStr.lower ext) ALLOWED_EXTENSIONS).
Proof.
  assert (Hsplit : forall stem ext,
    PyRepr.contains "." ext = false ->
    allowed_file (stem +:+ String "." ext)
    = PyStr.mem (PyStr.lower ext) ALLOWED_EXTENSIONS).
  { intros stem ext Hext. unfold allowed_file.
    rewrite contains_app, (rsplit_dot_app stem ext Hext). simpl.
    by rewrite orb_true_r. }
  split; [exact Hsplit|]. split.
  - intros name Hname. unfold allowed_file. by rewrite Hname.
  - intros name. split.
    + intros Hallowed. unfold allowed_file in Hallowed.
      destruct (PyRepr.contains "." name) eqn:Hdot; [|discriminate].
      destruct (rsplit_dot_with_dot name Hdot) as (stem & ext & Hs & -> & Hext).
      rewrite Hs in Hallowed. simpl in Hallowed.
      exists stem, ext. split; [done|]. split; [done|]. by apply mem_In.
    + intros (stem & ext & -> & Hext & Hin). rewrite (Hsplit stem ext Hext).
      by apply mem_In.
Qed.

(** ** Word lookup *)




(** ** The shape of a fingerprint *)

Lemma round_length st kw : length st = 8%nat -> length (SHA256.round st kw) = 8%nat.
Proof.
  destruct st as [|a [|b [|c [|d [|e [|f [|g [|h [|? ?]]]]]]]]]; simpl; try discriminate.
  done.
Qed.

Lemma rounds_length kws st :
  length st = 8%nat -> length (fold_left SHA256.round kws st) = 8%nat.
Proof.
  revert st. induction kws as [|kw kws IH]; intros st Hst; simpl; [done|].
  apply IH. by apply round_length.
Qed.

Lemma compress_length h block :
  length h = 8%nat -> length (SHA256.compress h block) = 8%nat.
Proof.
  intros Hh. unfold SHA256.compress.
  rewrite length_map, length_combine, rounds_length by done. rewrite Hh. done.
Qed.

Lemma digest_length msg : length (SHA256.digest msg) = 8%nat.
Proof.
  unfold SHA256.digest.
  generalize (SHA256.blocks
                (length (SHA256.words_of (length (SHA256.pad msg)) (SHA256.pad msg)))
                (SHA256.words_of (length (SHA256.pad msg)) (SHA256.pad msg))).
  intros bs. assert (H : length SHA256.H0 = 8%nat) by reflexivity.
  revert H. generalize SHA256.H0. induction bs as [|b bs IH]; intros h Hh; simpl;
    [done|].
  apply IH. by apply compress_length.
Qed.

Lemma hex_digit_is_hex n : 0 <= n < 16 -> is_hex (PyRepr.hex_digit n) = true.
Proof.
  intros Hn. rewrite <- (Z2Nat.id n) by lia.
  assert (Hk : (Z.to_nat n < 16)%nat) by lia.
  revert Hk. generalize (Z.to_nat n). clear. intros k Hk.
  do 16 (destruct k as [|k]; [reflexivity|]). lia.
Qed.

Lemma hex_word_shape w :
  String.length (SHA256.hex_word w) = 8%nat /\ all_hex (SHA256.hex_word w) = true.
Proof.
  unfold SHA256.hex_word. cbn [rev seq map app string_of_list_ascii String.length all_hex].
  split; [done|].
  rewrite !hex_digit_is_hex by (apply Z.mod_pos_bound; lia). done.
Qed.

Lemma string_app_shape (s1 s2 : string) :
  String.length (s1 +:+ s2) = (String.length s1 + String.length s2)%nat /\
  all_hex (s1 +:+ s2) = all_hex s1 && all_hex s2.
Proof.
  induction s1 as [|c s1 IH]; simpl; [done|].
  destruct IH as [-> ->]. split; [done|]. by rewrite andb_assoc.
Qed.

Lemma concat_shape (ss : list string) :
  (forall s, In s ss -> String.length s = 8%nat /\ all_hex s = true) ->
  String.length (String.concat EmptyString ss) = (8 * length ss)%nat /\
  all_hex (String.concat EmptyString ss) = true.
Proof.
  induction ss as [|s ss IH]; intros Hall; [done|].
  destruct (Hall s (or_introl eq_refl)) as [Hl Hh].
  destruct (IH (fun s' Hin => Hall s' (or_intror Hin))) as [IHl IHh].
  destruct ss as [|s' ss].
  - cbn [String.concat length]. by rewrite Hl, Hh.
  - change (String.concat EmptyString (s :: s' :: ss))
      with (s +:+ String.concat EmptyString (s' :: ss)).
    destruct (string_app_shape s (String.concat EmptyString (s' :: ss))) as [-> ->].
    rewrite Hl, Hh, IHl, IHh. cbn [length]. split; [lia|done].
Qed.

Lemma concat_hex_words ws :
  String.length (String.concat EmptyString (map SHA256.hex_word ws))
    = (8 * length ws)%nat /\
  all_hex (String.concat EmptyString (map SHA256.hex_word ws)) = true.
Proof.
  rewrite <- (length_map SHA256.hex_word ws). apply concat_shape.
  intros s Hin. apply in_map_iff in Hin as (w & <- & _). apply hex_word_shape.
Qed.

(** Every fingerprint is a string of 64 lower-case hexadecimal digits,
    whatever the text and the options. *)
Theorem fingerprint_is_64_hex_digits text options :
  String.length (generate_cache_key text options) = 64%nat /\
  all_hex (generate_cache_key text options) = true.
Proof.
  unfold generate_cache_key, SHA256.hexdigest.
  destruct (concat_hex_words (SHA256.digest (SHA256.encode_utf8 (hash_input text options))))
    as [Hl Hh].
  rewrite Hl, Hh, digest_length. done.
Qed.

(** ** [sanitize_text] *)

Lemma after_gt_None (s : string) :
  after_gt s = None <-> PyRepr.contains ">" s = false.
Proof.
  induction s as [|c r IH]; simpl; [done|].
  destruct (Ascii.eqb c ">"); [split; discriminate|exact IH].
Qed.

Lemma after_gt_Some (s rest : string) :
  after_gt s = Some rest ->
  (String.length rest < String.length s)%nat /\
  forall x, PyRepr.contains x rest = true -> PyRepr.contains x s = true.
Proof.
  revert rest. induction s as [|c r IH]; simpl; intros rest; [discriminate|].
  destruct (Ascii.eqb c ">").
  - intros [= <-]. split; [lia|]. intros x Hx. rewrite Hx. by destruct (Ascii.eqb c x).
  - intros H. destruct (IH rest H) as [Hlen Hsub]. split; [lia|].
    intros x Hx. rewrite (Hsub x Hx). by destruct (Ascii.eqb c x).
Qed.

(** The sanitiser adds no character. *)
Lemma sanitize_from_contains fuel (s : string) x :
  PyRepr.contains x (sanitize_from fuel s) = true -> PyRepr.contains x s = true.
Proof.
  revert s. induction fuel as [|fuel IH]; intros s; simpl; [done|].
  destruct s as [|c r]; [done|].
  assert (Hkeep : PyRepr.contains x (String c (sanitize_from fuel r)) = true ->
                  PyRepr.contains x (String c r) = true).
  { simpl. destruct (Ascii.eqb c x); [done|]. apply IH. }
  destruct (Ascii.eqb c "<"); [|exact Hkeep].
  destruct r as [|c' r']; [done|].
  destruct (Ascii.eqb c' ">"); [exact Hkeep|].
  destruct (after_gt r') as [rest|] eqn:Hgt; [|exact Hkeep].
  intros Hx. apply IH in Hx. apply (proj2 (after_gt_Some _ _ Hgt)) in Hx.
  simpl. rewrite Hx. by destruct (Ascii.eqb c x), (Ascii.eqb c' x).
Qed.

Lemma sanitize_from_shape fuel (s : string) :
  (String.length s <= fuel)%nat ->
  has_tag (sanitize_from fuel s) = false /\
  (String.length (sanitize_from fuel s) <= String.length s)%nat.
Proof.
  revert s. induction fuel as [|fuel IH]; intros s Hfuel.
  - destruct s; [done|simpl in Hfuel; lia].
  - destruct s as [|c r]; [done|]. simpl in Hfuel.
    assert (Hr : (String.length r <= fuel)%nat) by lia.
    destruct (IH r Hr) as [IHtag IHlen].
    cbn [sanitize_from].
    destruct (Ascii.eqb c "<") eqn:Hc.
    + destruct r as [|c' r'];
        [split; [simpl; by rewrite andb_false_r|simpl; lia]|].
      destruct (Ascii.eqb c' ">") eqn:Hc'.
      * split; [|simpl in *; lia].
        destruct fuel as [|fuel']; [simpl in Hr; lia|].
        cbn [sanitize_from] in *. apply Ascii.eqb_eq in Hc' as ->.
        change (Ascii.eqb ">" "<") with false in *. cbn iota in *.
        cbn [has_tag] in *. change (Ascii.eqb ">" ">") with true.
        simpl. by rewrite andb_false_r.
      * destruct (after_gt r') as [rest|] eqn:Hgt.
        -- destruct (after_gt_Some _ _ Hgt) as [Hlen _]. simpl in Hr.
           destruct (IH rest ltac:(lia)) as [Htag Hl]. split; [done|simpl; lia].
        -- split; [|simpl in *; lia].
           cbn [has_tag]. rewrite IHtag, orb_false_r.
           destruct (sanitize_from fuel (String c' r')) as [|x X] eqn:HX;
             [by rewrite andb_false_r|].
           destruct (PyRepr.contains ">" X) eqn:HgtX;
             [|by rewrite !andb_false_r].
           exfalso.
           assert (H : PyRepr.contains ">" (sanitize_from fuel (String c' r')) = true).
           { rewrite HX. simpl. rewrite HgtX. by destruct (Ascii.eqb x ">"). }
           apply sanitize_from_contains in H. simpl in H. rewrite Hc' in H.
           apply after_gt_None in Hgt. congruence.
    + split; [|simpl; lia]. cbn [has_tag]. by rewrite Hc, IHtag.
Qed.

Lemma sanitize_from_without_tag fuel (s : string) :
  has_tag s = false -> sanitize_from fuel s = s.
Proof.
  revert s. induction fuel as [|fuel IH]; intros s Htag; [done|].
  destruct s as [|c r]; [done|]. cbn [sanitize_from has_tag] in *.
  apply orb_false_iff in Htag as [Hhere Hr].
  destruct (Ascii.eqb c "<"); [|by rewrite (IH r Hr)].
  destruct r as [|c' r']; [done|].
  destruct (Ascii.eqb c' ">"); [by rewrite (IH _ Hr)|].
  simpl in Hhere. apply after_gt_None in Hhere. rewrite Hhere.
  by rewrite (IH _ Hr).
Qed.

(** [sanitize_text] removes every tag: no [<] of its output is followed by a
    character other than [>] and, later, a [>]. It leaves a text without
    tags as it is, so sanitising twice is sanitising once; and it never
    makes the text longer. *)
Theorem sanitize_text_removes_all_tags (text : string) :
  has_tag (sanitize_text text) = false /\
  (has_tag text = false -> sanitize_text text = text) /\
  sanitize_text (sanitize_text text) = sanitize_text text /\
  (String.length (sanitize_text text) <= String.length text)%nat.
Proof.
  destruct (sanitize_from_shape (String.length text) text (le_n _)) as [Htag Hlen].
  split; [exact Htag|]. split; [apply sanitize_from_without_tag|].
  split; [by apply sanitize_from_without_tag|exact Hlen].
Qed.

(** ** Blank texts *)

Ltac bytes c := destruct c as [[] [] [] [] [] [] [] []].

Lemma after_space_shorter s r :
  PyStr.after_space s = Some r -> (String.length r < String.length s)%nat.
Proof.
  destruct s as [|c [|c1 [|c2 t]]]; simpl; try discriminate;
    repeat match goal with |- context [if ?b then _ else _] => destruct b end;
    intros [= <-]; simpl; lia.
Qed.

Lemma space_ind (P : string -> Prop) :
  (forall s, (forall r, PyStr.after_space s = Some r -> P r) -> P s) ->
  forall s, P s.
Proof.
  intros Hstep s. remember (String.length s) as n eqn:Hn.
  revert s Hn. induction n as [n IH] using lt_wf_ind. intros s ->.
  apply Hstep. intros r Hr. apply (IH (String.length r)); [|done].
  by apply after_space_shorter.
Qed.

Lemma lstrip_cons c r :
  PyStr.lstrip (String c r)
  = if PyStr.space1 c then PyStr.lstrip r
    else match r with
         | String c1 r1 =>
             if PyStr.space2 c c1 then PyStr.lstrip r1
             else match r1 with
                  | String c2 r2 =>
                      if PyStr.space3 c c1 c2 then PyStr.lstrip r2 else String c r
                  | EmptyString => String c r
                  end
         | EmptyString => String c r
         end.
Proof. reflexivity. Qed.

Lemma all_space_cons c r :
  PyStr.all_space (String c r)
  = if PyStr.space1 c then PyStr.all_space r
    else match r with
         | String c1 r1 =>
             if PyStr.space2 c c1 then PyStr.all_space r1
             else match r1 with
                  | String c2 r2 => PyStr.space3 c c1 c2 && PyStr.all_space r2
                  | EmptyString => false
                  end
         | EmptyString => false
         end.
Proof. reflexivity. Qed.

Lemma lstrip_after_space s :
  PyStr.lstrip s
  = match PyStr.after_space s with Some r => PyStr.lstrip r | None => s end.
Proof.
  destruct s as [|c r]; [done|]. rewrite lstrip_cons. unfold PyStr.after_space.
  destruct (PyStr.space1 c); [done|]. destruct r as [|c1 r1]; [done|].
  destruct (PyStr.space2 c c1); [done|]. destruct r1 as [|c2 r2]; [done|].
  by destruct (PyStr.space3 c c1 c2).
Qed.

Lemma all_space_after_space s :
  PyStr.all_space s
  = match PyStr.after_space s with
    | Some r => PyStr.all_space r
    | None => match s with EmptyString => true | _ => false end
    end.
Proof.
  destruct s as [|c r]; [done|]. rewrite all_space_cons. unfold PyStr.after_space.
  destruct (PyStr.space1 c); [done|]. destruct r as [|c1 r1]; [done|].
  destruct (PyStr.space2 c c1); [done|]. destruct r1 as [|c2 r2]; [done|].
  by destruct (PyStr.space3 c c1 c2).
Qed.

Lemma lstrip_empty (s : string) :
  PyStr.lstrip s = EmptyString <-> PyStr.all_space s = true.
Proof.
  induction s as [s IH] using space_ind.
  rewrite lstrip_after_space, all_space_after_space.
  destruct (PyStr.after_space s) as [r|]; [by apply IH|].
  destruct s; [done|]. split; discriminate.
Qed.

Lemma rstrip_empty (s : string) :
  PyStr.rstrip s = EmptyString <-> PyStr.all_space s = true.
Proof.
  destruct s as [|c r]; [done|]. cbn [PyStr.rstrip].
  destruct (PyStr.all_space (String c r)); [done|]. split; discriminate.
Qed.

Lemma lstrip_all_space (s : string) :
  PyStr.all_space (PyStr.lstrip s) = PyStr.all_space s.
Proof.
  induction s as [s IH] using space_ind.
  rewrite lstrip_after_space, (all_space_after_space s).
  destruct (PyStr.after_space s) as [r|] eqn:Hr; [by apply IH|].
  by rewrite all_space_after_space, Hr.
Qed.

Lemma strip_empty (s : string) :
  PyStr.strip s = EmptyString <-> PyStr.all_space s = true.
Proof.
  unfold PyStr.strip. rewrite rstrip_empty. by rewrite lstrip_all_space.
Qed.

(** White space is well-formed UTF-8, and a well-formed text does not begin
    with a byte that continues a character. *)
Lemma code_eq c n : PyRepr.code c = n -> c = ascii_of_N (Z.to_N n).
Proof.
  intros <-. unfold PyRepr.code. by rewrite N2Z.id, ascii_N_embedding.
Qed.

Ltac bools :=
  repeat match goal with
  | H : _ && _ = true |- _ => apply andb_true_iff in H as [? ?]
  | H : _ || _ = true |- _ => apply orb_true_iff in H as [H|H]
  | H : (PyRepr.code _ =? _) = true |- _ => apply Z.eqb_eq, code_eq in H; subst
  end.

Lemma utf8_valid_after_space s r :
  PyStr.after_space s = Some r -> utf8_valid s = utf8_valid r.
Proof.
  destruct s as [|c s1]; [discriminate|]. unfold PyStr.after_space.
  destruct (PyStr.space1 c) eqn:H1.
  { intros [= <-]. bytes c; try discriminate H1; reflexivity. }
  destruct s1 as [|c1 s2]; [discriminate|].
  destruct (PyStr.space2 c c1) eqn:H2.
  { intros [= <-]. clear H1. unfold PyStr.space2 in H2. bools; reflexivity. }
  destruct s2 as [|c2 s3]; [discriminate|].
  destruct (PyStr.space3 c c1 c2) eqn:H3; [|discriminate].
  intros [= <-]. clear H1 H2. unfold PyStr.space3 in H3. bools; try reflexivity.
  match goal with
  | Hlo : (128 <=? PyRepr.code c2) = true, Hhi : (PyRepr.code c2 <=? 138) = true |- _ =>
      revert Hlo Hhi; bytes c2; intros Hlo Hhi;
        try discriminate Hlo; try discriminate Hhi; reflexivity
  end.
Qed.

Lemma all_space_utf8_valid s : PyStr.all_space s = true -> utf8_valid s = true.
Proof.
  induction s as [s IH] using space_ind.
  rewrite all_space_after_space.
  destruct (PyStr.after_space s) as [r|] eqn:Hr.
  - intros Hall. rewrite (utf8_valid_after_space s r Hr). by apply IH.
  - by destruct s.
Qed.

Lemma utf8_valid_lstrip s : utf8_valid s = true -> utf8_valid (PyStr.lstrip s) = true.
Proof.
  induction s as [s IH] using space_ind.
  rewrite lstrip_after_space.
  destruct (PyStr.after_space s) as [r|] eqn:Hr; [|done].
  rewrite (utf8_valid_after_space s r Hr). by apply IH.
Qed.

Lemma utf8_valid_head c r :
  utf8_valid (String c r) = true -> PyStr.continuation c = false.
Proof.
  intros Hv. destruct (PyStr.continuation c) eqn:Hc; [exfalso|done].
  revert Hv. bytes c; try discriminate Hc; clear Hc;
    destruct r as [|c1 [|c2 [|c3 r]]]; cbn; discriminate.
Qed.

Lemma len_strip_zero s :
  utf8_valid s = true ->
  (PyStr.len (PyStr.strip s) = 0%nat <-> PyStr.all_space s = true).
Proof.
  intros Hv. split.
  - unfold PyStr.strip. rewrite <- lstrip_all_space.
    apply utf8_valid_lstrip in Hv. destruct (PyStr.lstrip s) as [|c r]; [done|].
    cbn [PyStr.rstrip]. destruct (PyStr.all_space (String c r)); [done|].
    cbn [PyStr.len]. by rewrite (utf8_valid_head c r Hv).
  - intros Hall. apply strip_empty in Hall. by rewrite Hall.
Qed.

Section BlankText.

Variable sent_tokenize : string -> list string.
Variable word_tokenize : string -> list string.
Variable stop_words : list string.
Variable word2vec_model : option KeyedVectors.

Lemma endpoint_on_sized_text (t_sweep t_check t_store : Q) text opts
    (cache : gmap string CacheEntry) :
  (Z.of_nat (PyStr.len text) <= 5 * 1024 * 1024) ->
  (PyStr.len (PyStr.strip text) = 0%nat <->
   process_text_endpoint sent_tokenize word_tokenize stop_words word2vec_model
     t_sweep t_check t_store (request text opts) cache
   = (Error 400 "Text cannot be empty", cache)).
Proof.
  intros Hsize. unfold process_text_endpoint, request.
  change (dict_get "text" [("text", PStr text); ("options", PDict opts)])
    with (Some (PStr text)).
  change (dict_get "options" [("text", PStr text); ("options", PDict opts)])
    with (Some (PDict opts)).
  cbv beta iota.
  destruct (Z.ltb_spec (5 * 1024 * 1024) (Z.of_nat (PyStr.len text))) as [|_]; [lia|].
  destruct (Nat.eqb_spec (PyStr.len (PyStr.strip text)) 0) as [Hz|Hnz]; [done|].
  split; [done|].
  destruct (clean_expired_cache t_sweep cache !! generate_cache_key text (PDict opts))
    as [e|].
  - destruct (py_lt t_check (expires_at e)); [discriminate|].
    destruct (process_text _ _ _ _ _ _); discriminate.
  - destruct (process_text _ _ _ _ _ _); discriminate.
Qed.

Lemma endpoint_refuses_blank (t_sweep t_check t_store : Q) text opts
    (cache : gmap string CacheEntry) :
  (Z.of_nat (PyStr.len text) <= 5 * 1024 * 1024) ->
  PyStr.all_space text = true ->
  process_text_endpoint sent_tokenize word_tokenize stop_words word2vec_model
    t_sweep t_check t_store (request text opts) cache
  = (Error 400 "Text cannot be empty", cache).
Proof.
  intros Hsize Hall. apply endpoint_on_sized_text; [done|].
  apply len_strip_zero; [by apply all_space_utf8_valid|done].
Qed.

(** A request whose text (the UTF-8 encoding of a string) has at most
    5 * 1024 * 1024 characters is refused as empty exactly when the text
    consists of white-space characters only (the empty text included),
    those beyond ASCII such as the no-break space among them; the refusal
    leaves the cache as it was. *)
Theorem blank_text_is_refused (t_sweep t_check t_store : Q) text opts
    (cache : gmap string CacheEntry) :
  utf8_valid text = true ->
  (Z.of_nat (PyStr.len text) <= 5 * 1024 * 1024) ->
  (PyStr.all_space text = true <->
   process_text_endpoint sent_tokenize word_tokenize stop_words word2vec_model
     t_sweep t_check t_store (request text opts) cache
   = (Error 400 "Text cannot be empty", cache)).
Proof.
  intros Hv Hsize. rewrite <- (len_strip_zero text Hv).
  by apply endpoint_on_sized_text.
Qed.

End BlankText.

(** ** The statistics and the dictionary *)

Lemma counter_incr_sum (p : string -> bool) w (d : list (string * nat)) :
  list_sum (map (fun wc => if p (fst wc) then snd wc else 0%nat) (counter_incr w d)) =
  (list_sum (map (fun wc => if p (fst wc) then snd wc else 0%nat) d)
   + if p w then 1 else 0)%nat.
Proof.
  induction d as [|[k c] d IH]; simpl.
  - destruct (p w); lia.
  - destruct (String.eqb_spec k w) as [->|Hne]; simpl.
    + destruct (p w); lia.
    + rewrite IH. destruct (p k), (p w); lia.
Qed.

Lemma Counter_sum_from (p : string -> bool) (words : list string)
    (d : list (string * nat)) :
  list_sum (map (fun wc => if p (fst wc) then snd wc else 0%nat)
                (fold_left (fun d w => counter_incr w d) words d)) =
  (list_sum (map (fun wc => if p (fst wc) then snd wc else 0%nat) d)
   + length (List.filter p words))%nat.
Proof.
  revert d. induction words as [|w words IH]; intros d; simpl; [lia|].
  rewrite IH, counter_incr_sum. destruct (p w); simpl; lia.
Qed.

(** The counts of the keys that satisfy [p] add up to the number of
    occurrences of such words. *)
Lemma Counter_sum (p : string -> bool) (words : list string) :
  list_sum (map (fun wc => if p (fst wc) then snd wc else 0%nat) (Counter words))
  = length (List.filter p words).
Proof. unfold Counter. by rewrite Counter_sum_from. Qed.

Lemma Counter_key_In (words : list string) w :
  In w (map fst (Counter words)) <-> In w words.
Proof.
  split.
  - intros Hin. apply in_map_iff in Hin as ([w' c] & <- & Hin).
    by destruct (Counter_In words w' c Hin) as (_ & _ & ?).
  - intros Hin. apply (count_occ_In string_dec) in Hin.
    pose proof (Counter_get words w) as Hget.
    destruct (count_occ string_dec words w) as [|n]; [lia|].
    clear Hin. revert Hget. generalize (Counter words).
    induction l as [|[k c] l IH]; simpl; [discriminate|].
    destruct (String.eqb_spec k w) as [->|Hne]; [by left|].
    intros H. right. by apply IH.
Qed.

Lemma py_set_In (words : list string) w : In w (py_set words) <-> In w words.
Proof.
  induction words as [|x words IH]; simpl; [done|].
  destruct (PyStr.mem x (py_set words)) eqn:Hmem.
  - rewrite IH. split; [by right|]. intros [<-|?]; [|done].
    by apply IH, mem_In.
  - simpl. by rewrite IH.
Qed.

Lemma py_set_NoDup (words : list string) : NoDup (py_set words).
Proof.
  induction words as [|x words IH]; simpl; [constructor|].
  destruct (PyStr.mem x (py_set words)) eqn:Hmem; [done|].
  constructor; [|done]. intros Hin. apply list_elem_of_In, mem_In in Hin. congruence.
Qed.

Lemma Counter_NoDup (words : list string) : NoDup (map fst (Counter words)).
Proof. rewrite Counter_keys. apply first_seen_from_NoDup. constructor. Qed.

(** [len(set(words))] is the number of keys of the frequency table. *)
Lemma py_set_length (words : list string) :
  length (py_set words) = length (Counter words).
Proof.
  rewrite <- (length_map fst (Counter words)).
  apply Permutation_length. apply NoDup_Permutation.
  - apply py_set_NoDup.
  - apply Counter_NoDup.
  - intros w. rewrite !list_elem_of_In, py_set_In, Counter_key_In. done.
Qed.

Lemma StronglySorted_firstn {A} (R : A -> A -> Prop) n (l : list A) :
  StronglySorted R l -> StronglySorted R (firstn n l).
Proof.
  intros H. revert n. induction H as [|x l Hl IH Hx]; intros [|n]; simpl;
    try constructor; [apply IH|].
  apply Forall_forall. intros y Hy. apply list_elem_of_In, In_firstn in Hy.
  by apply (proj1 (Forall_forall _ _) Hx), list_elem_of_In.
Qed.

Lemma StronglySorted_filter {A} (R : A -> A -> Prop) (p : A -> bool) (l : list A) :
  StronglySorted R l -> StronglySorted R (List.filter p l).
Proof.
  induction 1 as [|x l Hl IH Hx]; simpl; [constructor|].
  destruct (p x); [|done]. constructor; [done|].
  apply Forall_forall. intros y Hy. apply list_elem_of_In, filter_In in Hy as [Hy _].
  by apply (proj1 (Forall_forall _ _) Hx), list_elem_of_In.
Qed.

Section Statistics.

Variable sent_tokenize : string -> list string.
Variable word_tokenize : string -> list string.
Variable stop_words : list string.
Variable word2vec_model : option KeyedVectors.

Local Abbreviation analyse :=
  (process_text sent_tokenize word_tokenize stop_words word2vec_model).

Lemma process_text_statistics text include_embeddings r :
  analyse text include_embeddings = inr r ->
  let words := document_words word_tokenize text in
  let content_words := content_words_of stop_words words in
  word_count (statistics r) = length words /\
  unique_word_count (statistics r) = length (py_set words) /\
  sentence_count (statistics r) = length (sentences r) /\
  sentences r = sent_tokenize (sanitize_text text) /\
  character_count (statistics r)
    = PyStr.len (PyStr.remove_spaces (sanitize_text text)) /\
  content_word_count (statistics r) = length content_words /\
  stopword_count (statistics r) = (length words - length content_words)%nat.
Proof.
  intros H. unfold process_text in H. cbv zeta in H.
  fold (document_words word_tokenize text) in H.
  fold (content_words_of stop_words (document_words word_tokenize text)) in H.
  apply bind_inr in H as (doc & _ & H).
  apply bind_inr in H as (embs' & _ & H).
  apply bind_inr in H as (arr & _ & H).
  apply bind_inr in H as (m' & _ & H).
  apply bind_inr in H as (index & _ & H).
  apply bind_inr in H as (DI & _ & H).
  apply bind_inr in H as (ws' & _ & H).
  apply bind_inr in H as (wn & _ & H).
  injection H as <-. cbn. repeat split; reflexivity.
Qed.

Lemma word_entry_count include_embeddings n w c :
  count (word_entry stop_words word2vec_model include_embeddings n w c) = c /\
  is_stopword (word_entry stop_words word2vec_model include_embeddings n w c)
    = PyStr.mem w stop_words.
Proof.
  unfold word_entry. destruct (truthy include_embeddings); [|done].
  by destruct (get_word_embedding word2vec_model w).
Qed.

(** The statistics of a result agree with its dictionary: [word_count] is
    the sum of the counts, [unique_word_count] the number of records (one
    per distinct word), [stopword_count] and [content_word_count] the sums
    of the counts of the records flagged and not flagged as stopwords, and
    the two add up to [word_count]. *)
Theorem statistics_agree_with_dictionary text include_embeddings r :
  process_text sent_tokenize word_tokenize stop_words word2vec_model
    text include_embeddings = inr r ->
  let st := statistics r in
  let d := word_dictionary r in
  word_count st = list_sum (map (fun we => count (snd we)) d) /\
  unique_word_count st = length d /\
  NoDup (map fst d) /\
  stopword_count st =
    list_sum (map (fun we => if is_stopword (snd we) then count (snd we) else 0%nat) d) /\
  content_word_count st =
    list_sum (map (fun we => if is_stopword (snd we) then 0%nat else count (snd we)) d) /\
  (content_word_count st + stopword_count st)%nat = word_count st /\
  sentence_count st = length (sentences r).
Proof.
  intros H st d.
  pose proof (process_text_statistics _ _ _ H) as (Hwc & Huq & Hsc & _ & _ & Hcw & Hsw).
  apply process_text_success in H as (_ & _ & _ & Hdict & _).
  subst st d. rewrite Hwc, Huq, Hcw, Hsw, Hdict, Hsc. clear Hwc Huq Hsc Hcw Hsw Hdict.
  set (words := document_words word_tokenize text).
  rewrite !map_map. cbn [fst snd].
  assert (Hsum : forall p : string -> bool,
    list_sum (map (fun x => if p (fst x) then snd x else 0%nat) (Counter words))
    = length (List.filter p words)) by (intros p; apply Counter_sum).
  assert (Hall : List.filter (fun _ : string => true) words = words).
  { clear. induction words as [|w ws IH]; simpl; [done|]. by rewrite IH. }
  assert (Hsplit :
    (length (List.filter (fun w => PyStr.mem w stop_words) words)
     + length (content_words_of stop_words words))%nat = length words).
  { unfold content_words_of. clear. induction words as [|w ws IH]; simpl; [done|].
    destruct (PyStr.mem w stop_words); simpl; lia. }
  assert (Htotal : length words =
    list_sum (map (fun x => count (word_entry stop_words word2vec_model
                                     include_embeddings (length words) (fst x) (snd x)))
                  (Counter words))).
  { rewrite <- Hall at 1. rewrite <- (Hsum (fun _ => true)).
    f_equal. apply map_ext. intros [w c]. simpl.
    by destruct (word_entry_count include_embeddings (length words) w c) as [-> _]. }
  assert (Hstop : length (List.filter (fun w => PyStr.mem w stop_words) words) =
    list_sum (map (fun x =>
        if is_stopword (word_entry stop_words word2vec_model include_embeddings
                          (length words) (fst x) (snd x))
        then count (word_entry stop_words word2vec_model include_embeddings
                      (length words) (fst x) (snd x))
        else 0%nat) (Counter words))).
  { rewrite <- (Hsum (fun w => PyStr.mem w stop_words)).
    f_equal. apply map_ext. intros [w c]. simpl.
    by destruct (word_entry_count include_embeddings (length words) w c) as [-> ->]. }
  assert (Hcontent : length (content_words_of stop_words words) =
    list_sum (map (fun x =>
        if is_stopword (word_entry stop_words word2vec_model include_embeddings
                          (length words) (fst x) (snd x))
        then 0%nat
        else count (word_entry stop_words word2vec_model include_embeddings
                      (length words) (fst x) (snd x))) (Counter words))).
  { unfold content_words_of.
    rewrite <- (Hsum (fun w => negb (PyStr.mem w stop_words))).
    f_equal. apply map_ext. intros [w c]. simpl.
    destruct (word_entry_count include_embeddings (length words) w c) as [-> ->].
    by destruct (PyStr.mem w stop_words). }
  split; [exact Htotal|].
  split; [rewrite length_map; apply py_set_length|].
  split; [apply Counter_NoDup|].
  split; [rewrite <- Hstop; lia|].
  split; [exact Hcontent|].
  split; [lia|done].
Qed.

End Statistics.

(** ** [top_words] and the dictionary *)

Lemma NoDup_keys_firstn {V} n (l : list (string * V)) :
  NoDup (map fst l) -> NoDup (map fst (firstn n l)).
Proof.
  revert n. induction l as [|[k v] l IH]; intros [|n]; simpl; try constructor.
  - apply NoDup_cons in H as [Hk _]. intros Hin. apply Hk.
    apply list_elem_of_In. apply list_elem_of_In, in_map_iff in Hin as (x & <- & Hx).
    apply in_map. by apply (In_firstn n).
  - apply IH. by apply NoDup_cons in H as [_ ?].
Qed.

Lemma NoDup_keys_filter {V} (p : string * V -> bool) (l : list (string * V)) :
  NoDup (map fst l) -> NoDup (map fst (List.filter p l)).
Proof.
  induction l as [|[k v] l IH]; simpl; [done|].
  intros H. apply NoDup_cons in H as [Hk Hl].
  destruct (p (k, v)); [|by apply IH]. simpl. constructor; [|by apply IH].
  intros Hin. apply Hk.
  apply list_elem_of_In. apply list_elem_of_In, in_map_iff in Hin as (x & <- & Hx).
  apply in_map. by apply filter_In in Hx as [? _].
Qed.

Section TopWords.

Variable sent_tokenize : string -> list string.
Variable word_tokenize : string -> list string.
Variable stop_words : list string.
Variable word2vec_model : option KeyedVectors.

Local Abbreviation analyse :=
  (process_text sent_tokenize word_tokenize stop_words word2vec_model).

(** [top_words] lists distinct words in non-increasing order of count, and
    each of its entries repeats the count of the word's record in
    [word_dictionary], a record that is not flagged as a stopword. *)
Theorem top_words_agree_with_dictionary text include_embeddings r :
  analyse text include_embeddings = inr r ->
  StronglySorted by_count_desc (top_words r) /\
  NoDup (map fst (top_words r)) /\
  (forall w c, In (w, c) (top_words r) ->
     exists e, dict_get w (word_dictionary r) = Some e /\
               count e = c /\ is_stopword e = false).
Proof.
  intros H. apply process_text_success in H as (_ & _ & Htop & Hdict & _).
  set (words := document_words word_tokenize text) in *.
  rewrite Htop. unfold most_common. split; [|split].
  - apply StronglySorted_filter, StronglySorted_firstn, sorted_desc_sorted.
  - apply NoDup_keys_filter, NoDup_keys_firstn.
    rewrite (Permutation_map fst (sorted_desc_perm (Counter words))).
    apply Counter_NoDup.
  - intros w c Hin. apply filter_In in Hin as [Hin Hcontent]. simpl in Hcontent.
    apply In_firstn in Hin.
    apply (Permutation_in _ (sorted_desc_perm (Counter words))) in Hin.
    apply mem_In, filter_In in Hcontent as [_ Hstop].
    apply negb_true_iff in Hstop.
    rewrite Hdict.
    rewrite (dict_get_map (fun w c => word_entry stop_words word2vec_model
                                        include_embeddings _ w c)).
    rewrite (In_dict_get w c (Counter words) (Counter_NoDup words) Hin).
    eexists. split; [reflexivity|].
    destruct (word_entry_count stop_words word2vec_model include_embeddings
                (length words) w c) as [-> ->]. done.
Qed.

End TopWords.

(** ** The index search and the loops over it *)















(** ** When [process_text] returns *)

Lemma array_of_rows (l : list Vector) dim :
  l <> [] -> (forall v, In v l -> length v = dim) ->
  Numpy.array l = inr {| Numpy.shape := [length l; dim]; Numpy.rows := l |}.
Proof.
  intros Hne Hdim. destruct l as [|r rs]; [done|]. unfold Numpy.array.
  assert (Hall : forallb (fun x => Nat.eqb (length x) (length r)) rs = true).
  { apply forallb_forall. intros x Hx. apply Nat.eqb_eq.
    rewrite (Hdim x (or_intror Hx)), (Hdim r (or_introl eq_refl)). done. }
  rewrite Hall. by rewrite (Hdim r (or_introl eq_refl)).
Qed.

Lemma array_inr (l : list Vector) a :
  Numpy.array l = inr a ->
  Numpy.rows a = l /\
  (l = [] /\ Numpy.shape a = [0%nat] \/
   exists dim, l <> [] /\ Numpy.shape a = [length l; dim] /\
               forall v, In v l -> length v = dim).
Proof.
  unfold Numpy.array. destruct l as [|r rs].
  - intros [= <-]. split; [done|]. by left.
  - destruct (forallb (fun x => Nat.eqb (length x) (length r)) rs) eqn:Hall;
      [|discriminate]. intros [= <-].
    split; [done|]. right. exists (length r). split; [done|]. split; [done|].
    intros v [<-|Hv]; [done|].
    apply (proj1 (forallb_forall _ _) Hall) in Hv. by apply Nat.eqb_eq in Hv.
Qed.







Section Returns.

Variable sent_tokenize : string -> list string.
Variable word_tokenize : string -> list string.
Variable stop_words : list string.
Variable word2vec_model : option KeyedVectors.

Local Abbreviation analyse :=
  (process_text sent_tokenize word_tokenize stop_words word2vec_model).

(** The steps behind a returned result. *)
Lemma process_text_inversion text include_embeddings r :
  analyse text include_embeddings = inr r ->
  let content_words :=
    content_words_of stop_words (document_words word_tokenize text) in
  exists m embs ws mean,
    word2vec_model = Some m /\ truthy include_embeddings = true /\
    resolve word2vec_model content_words = (embs, ws) /\ embs <> [] /\
    (forall v, In v embs -> length v = vector_size m) /\
    Numpy.mean0 embs = inr mean /\ document_embedding r = Some mean /\
    neighbors_loop 10 ws
      (map (map fst) (map (fun q => Faiss.knn embs q 10) embs))
      (map (map snd) (map (fun q => Faiss.knn embs q 10) embs))
    = inr (words_neighbors r) /\
    embedding_coverage r =
      Some (match content_words with
            | [] => 0%Q
            | _ => py_round
                     (ratio (length (List.filter
                               (fun w => is_not_none (get_word_embedding word2vec_model w))
                               content_words))
                            (length content_words)) 2
            end).
Proof.
  intros H content_words. unfold process_text in H. cbv zeta in H.
  fold (document_words word_tokenize text) in H.
  fold (content_words_of stop_words (document_words word_tokenize text)) in H.
  fold content_words in H.
  destruct (truthy include_embeddings) eqn:Hinc;
    destruct word2vec_model as [m|] eqn:Hm; try discriminate H.
  cbn [andb is_not_none] in H.
  destruct (resolve (Some m) content_words) as [embs ws] eqn:Hres.
  apply bind_inr in H as (doc & Hdoc & H).
  apply bind_inr in H as (embs' & Hembs & H). injection Hembs as <-.
  apply bind_inr in H as (arr & Harr & H).
  apply bind_inr in H as (m' & Hm' & H). injection Hm' as <-.
  apply bind_inr in H as (index & Hadd & H).
  apply bind_inr in H as ([D I] & Hsearch & H).
  apply bind_inr in H as (ws' & Hws & H). injection Hws as <-.
  apply bind_inr in H as (wn & Hwn & H).
  destruct (array_inr embs arr Harr) as [Hrows [[-> Hshape]|(dim & Hne & Hshape & Hdim)]].
  { unfold Faiss.add, Faiss.unpack2 in Hadd. rewrite Hshape in Hadd. discriminate. }
  unfold Faiss.add, Faiss.unpack2 in Hadd. rewrite Hshape in Hadd. simpl in Hadd.
  destruct (Nat.eqb_spec dim (vector_size m)) as [Heq|]; [|discriminate].
  injection Hadd as <-.
  unfold Faiss.search, Faiss.unpack2 in Hsearch. rewrite Hshape in Hsearch.
  simpl in Hsearch. rewrite Heq, Nat.eqb_refl, Hrows in Hsearch.
  injection Hsearch as <- <-. rewrite Heq in Hdim.
  destruct embs as [|e es]; [done|].
  apply bind_inr in Hdoc as (mean & Hmean & Hdoc). injection Hdoc as <-.
  exists m, (e :: es), ws, mean. injection H as <-. cbn.
  repeat split; try done.
Qed.


End Returns.

(** ** Rounding a proportion *)

Lemma round_half_even_bounds (y : Q) (n : Z) :
  (0 <= y)%Q -> (y <= inject_Z n)%Q -> 0 <= round_half_even y <= n.
Proof.
  intros Hlo Hhi. unfold round_half_even.
  pose proof (Qfloor_le y) as Hfl. pose proof (Qlt_floor y) as Hfu.
  set (f := Qfloor y) in *.
  assert (Hf0 : 0 <= f).
  { assert (H : (0 < inject_Z (f + 1))%Q) by lra.
    change 0%Q with (inject_Z 0) in H. rewrite <- Zlt_Qlt in H. lia. }
  assert (Hfn : f <= n).
  { assert (H : (inject_Z f <= inject_Z n)%Q) by lra. by rewrite <- Zle_Qle in H. }
  assert (Hup : (inject_Z f < y)%Q -> f + 1 <= n).
  { intros Hlt. assert (H : (inject_Z f < inject_Z n)%Q) by lra.
    rewrite <- Zlt_Qlt in H. lia. }
  destruct (Qcompare_spec (y - inject_Z f) (1 # 2)) as [Heq|Hlt|Hgt].
  - destruct (Z.even f); [lia|]. assert (inject_Z f < y)%Q by lra. split; [lia|auto].
  - lia.
  - assert (inject_Z f < y)%Q by lra. split; [lia|auto].
Qed.

(** Rounding a number between 0 and 1 to two decimals keeps it there. *)
Lemma py_round_unit (x : Q) :
  (0 <= x)%Q -> (x <= 1)%Q -> (0 <= py_round x 2)%Q /\ (py_round x 2 <= 1)%Q.
Proof.
  intros Hlo Hhi. unfold py_round. rewrite Qred_correct.
  change (inject_Z (10 ^ Z.of_nat 2)) with (inject_Z 100).
  assert (Hb : 0 <= round_half_even (x * inject_Z 100) <= 100).
  { apply round_half_even_bounds; change (inject_Z 100) with (100 # 1)%Q; lra. }
  destruct Hb as [Hb0 Hb1].
  rewrite Zle_Qle in Hb0, Hb1. simpl inject_Z in Hb0.
  split.
  - apply Qle_shift_div_l; [done|]. by rewrite Qmult_0_l.
  - apply Qle_shift_div_r; [done|]. by rewrite Qmult_1_l.
Qed.

Lemma ratio_unit (k n : nat) :
  (k <= n)%nat -> (0 < n)%nat -> (0 <= ratio k n)%Q /\ (ratio k n <= 1)%Q.
Proof.
  intros Hkn Hn. unfold ratio.
  assert (Hn' : (0 < inject_Z (Z.of_nat n))%Q).
  { change 0%Q with (inject_Z 0). rewrite <- Zlt_Qlt. lia. }
  split.
  - apply Qle_shift_div_l; [done|]. rewrite Qmult_0_l.
    change 0%Q with (inject_Z 0). rewrite <- Zle_Qle. lia.
  - apply Qle_shift_div_r; [done|]. rewrite Qmult_1_l. rewrite <- Zle_Qle. lia.
Qed.

(** ** The neighbour lists of a result *)








Lemma vec_add_length (x y : Vector) :
  length (Numpy.vec_add x y) = Nat.min (length x) (length y).
Proof.
  revert y. induction x as [|a x IH]; intros [|b y]; simpl; try done. by rewrite IH.
Qed.

Lemma mean0_length (l : list Vector) dim mean :
  l <> [] -> (forall v, In v l -> length v = dim) ->
  Numpy.mean0 l = inr mean -> length mean = dim.
Proof.
  intros Hne Hdim. unfold Numpy.mean0. rewrite (array_of_rows l dim Hne Hdim).
  cbn [bind Numpy.rows]. destruct l as [|r rs]; [done|]. intros [= <-].
  rewrite length_map.
  assert (H : forall acc, length acc = dim ->
                          length (fold_left Numpy.vec_add rs acc) = dim).
  { assert (Hrs : forall v, In v rs -> length v = dim)
      by (intros v Hv; apply Hdim; by right).
    clear Hne Hdim. induction rs as [|x rs IH]; intros acc Hacc; simpl; [done|].
    apply IH.
    - intros v Hv. apply Hrs. by right.
    - rewrite vec_add_length, Hacc, (Hrs x (or_introl eq_refl)). lia. }
  apply H. rewrite length_map. apply Hdim. by left.
Qed.

Section Neighbours.

Variable sent_tokenize : string -> list string.
Variable word_tokenize : string -> list string.
Variable stop_words : list string.
Variable word2vec_model : option KeyedVectors.

Local Abbreviation analyse :=
  (process_text sent_tokenize word_tokenize stop_words word2vec_model).


(** With a well-formed model, every result carries a document embedding of
    the model's dimension and an embedding coverage between 0 and 1. *)
Theorem result_has_document_embedding (m : KeyedVectors) text include_embeddings r :
  well_formed m ->
  word2vec_model = Some m ->
  analyse text include_embeddings = inr r ->
  exists v c,
    document_embedding r = Some v /\ length v = vector_size m /\
    embedding_coverage r = Some c /\ (0 <= c)%Q /\ (c <= 1)%Q.
Proof.
  intros Hwf Hm H.
  apply process_text_inversion in H
    as (m' & embs & ws & mean & Hm' & _ & Hres & Hne & Hdim & Hmean & Hdoc & _ & Hcov).
  rewrite Hm in Hm'. injection Hm' as <-.
  set (content_words :=
         content_words_of stop_words (document_words word_tokenize text)) in *.
  exists mean. eexists. split; [done|].
  split; [by apply (mean0_length embs (vector_size m) mean)|].
  split; [exact Hcov|].
  destruct content_words as [|w cw] eqn:Hcw; [split; done|].
  apply py_round_unit; apply ratio_unit.
  - apply filter_length_le.
  - simpl. lia.
  - apply filter_length_le.
  - simpl. lia.
Qed.

End Neighbours.

(** ** Uploads of blank files *)

Section BlankUpload.

Variable sent_tokenize : string -> list string.
Variable word_tokenize : string -> list string.
Variable stop_words : list string.
Variable word2vec_model : option KeyedVectors.
Variable secure_filename : string -> string.
Variable json_loads : string -> Py PyVal.

(** The upload handler has no emptiness check: a file with an allowed name
    and well-formed options is never refused for its content being blank
    or empty; its text goes to the cache lookup and the analysis, where
    the text handler would have answered 400. *)
Theorem upload_has_no_blank_check (t_sweep t_check t_store : Q) file
    form_options opts (cache : gmap string CacheEntry) :
  filename file <> EmptyString ->
  allowed_file (filename file) = true ->
  PyStr.all_space (content file) = true ->
  (5 * 1024 * 1024 <? Z.of_nat (PyStr.len (content file))) = false ->
  upload_options json_loads form_options opts ->
  (forall status msg,
     (process_file_endpoint sent_tokenize word_tokenize stop_words word2vec_model
        secure_filename json_loads t_sweep t_check t_store (Some file)
        form_options cache).1 <> FileError status msg) /\
  process_text_endpoint sent_tokenize word_tokenize stop_words word2vec_model
    t_sweep t_check t_store (request (content file) opts) cache
  = (Error 400 "Text cannot be empty", cache).
Proof.
  intros Hname Hallowed Hblank Hsize Hopts.
  assert (Hutf : utf8_valid (content file) = true)
    by (by apply all_space_utf8_valid).
  split.
  - intros status msg.
    rewrite (upload_accepts _ _ _ _ _ _ _ _ _ _ _ opts _ Hname Hallowed Hutf Hsize Hopts).
    cbv zeta.
    destruct (clean_expired_cache t_sweep cache !! _) as [e|].
    + destruct (py_lt t_check (expires_at e)); [discriminate|].
      destruct (process_text _ _ _ _ _ _); discriminate.
    + destruct (process_text _ _ _ _ _ _); discriminate.
  - apply endpoint_refuses_blank; [|done].
    destruct (Z.ltb_spec (5 * 1024 * 1024) (Z.of_nat (PyStr.len (content file))));
      [discriminate|done].
Qed.

End BlankUpload.

(** ** The properties above, on runs of the service *)

Example demo_model_well_formed : well_formed Demo.model.
Proof.
  intros w v. unfold Demo.model, Demo.table. simpl.
  destruct (String.eqb w "cat"); [by intros [= <-]|].
  destruct (String.eqb w "dog"); [by intros [= <-]|].
  destruct (String.eqb w "fish"); [by intros [= <-]|]. discriminate.
Qed.

Lemma sweep_twice_witness :
  clean_expired_cache 4000
    (clean_expired_cache 10 (<[Demo.cat_dog_key := Demo.cat_dog_entry 0]> ∅))
  = clean_expired_cache 4000 (<[Demo.cat_dog_key := Demo.cat_dog_entry 0]> ∅).
Proof.
  apply (sweep_twice 10 4000). unfold Qle. simpl. lia.
Defined.

Lemma computed_result_can_be_fetched_witness :
  get_cached 10 20 Demo.cat_dog_key
    (<[Demo.cat_dog_key := Demo.cat_dog_entry 0]> (clean_expired_cache 0 ∅))
  = (Data Demo.cat_dog,
     clean_expired_cache 10
       (<[Demo.cat_dog_key := Demo.cat_dog_entry 0]> (clean_expired_cache 0 ∅))).
Proof.
  destruct (computed_result_can_be_fetched
              Demo.sent_tokenize Demo.word_tokenize Demo.stop_words (Some Demo.model)
              0 0 0 (request "cat dog" []) ∅ _ _ _ first_request_cat_dog)
    as (key & Hkey & Hget & _).
  injection Hkey as <-. apply Hget.
  - unfold Qle. simpl. lia.
  - reflexivity.
Defined.

Lemma delete_forces_recomputation_witness :
  (delete_cached (generate_cache_key "cat dog" (PDict []))
     (<[Demo.cat_dog_key := Demo.cat_dog_entry 0]> (clean_expired_cache 0 ∅))).1
  = Message "Cache entry deleted".
Proof.
  exact (proj1 (delete_forces_recomputation
                  Demo.sent_tokenize Demo.word_tokenize Demo.stop_words
                  (Some Demo.model) 0 0 0 1 2 3 "cat dog" [] ∅ _ _ _
                  cat_dog_acceptable first_request_cat_dog)).
Defined.

Lemma upload_served_from_text_request_witness :
  DemoUpload.upload 1 2 3 (Some DemoUpload.notes) (Some "{}")
    (<[Demo.cat_dog_key := Demo.cat_dog_entry 0]> (clean_expired_cache 0 ∅))
  = (Uploaded Demo.cat_dog true None "notes.txt",
     clean_expired_cache 1
       (<[Demo.cat_dog_key := Demo.cat_dog_entry 0]> (clean_expired_cache 0 ∅))).
Proof.
  refine (upload_served_from_text_request
            Demo.sent_tokenize Demo.word_tokenize Demo.stop_words (Some Demo.model)
            DemoUpload.secure_filename DemoUpload.json_loads
            0 0 0 1 2 3 "cat dog" [] DemoUpload.notes (Some "{}") ∅ _ Demo.cat_dog
            (Some Demo.cat_dog_key)
            cat_dog_acceptable first_request_cat_dog _ _ _ _ _ _ _).
  - discriminate.
  - reflexivity.
  - reflexivity.
  - reflexivity.
  - reflexivity.
  - unfold Qle. simpl. lia.
  - reflexivity.
Defined.

Lemma blank_text_is_refused_witness :
  PyStr.all_space Demo.no_break_space = true <->
  Demo.endpoint 0 0 0 (request Demo.no_break_space []) ∅
  = (Error 400 "Text cannot be empty", ∅).
Proof.
  apply (blank_text_is_refused
           Demo.sent_tokenize Demo.word_tokenize Demo.stop_words (Some Demo.model)
           0 0 0 Demo.no_break_space [] ∅).
  - reflexivity.
  - simpl. lia.
Defined.

Lemma upload_has_no_blank_check_witness :
  process_text_endpoint Demo.sent_tokenize Demo.word_tokenize Demo.stop_words
    (Some Demo.model) 0 0 0 (request EmptyString []) ∅
  = (Error 400 "Text cannot be empty", ∅).
Proof.
  refine (proj2 (upload_has_no_blank_check
            Demo.sent_tokenize Demo.word_tokenize Demo.stop_words (Some Demo.model)
            DemoUpload.secure_filename DemoUpload.json_loads 0 0 0
            {| filename := "empty.txt"; content := EmptyString |} None [] ∅
            _ _ _ _ _)).
  - discriminate.
  - reflexivity.
  - reflexivity.
  - reflexivity.
  - reflexivity.
Defined.

Lemma statistics_agree_with_dictionary_witness :
  word_count (statistics Demo.cat_dog)
  = list_sum (map (fun we => count (snd we)) (word_dictionary Demo.cat_dog)).
Proof.
  exact (proj1 (statistics_agree_with_dictionary
                  Demo.sent_tokenize Demo.word_tokenize Demo.stop_words
                  (Some Demo.model) "cat dog" (PBool true) Demo.cat_dog run_cat_dog)).
Defined.

Lemma top_words_agree_with_dictionary_witness :
  StronglySorted by_count_desc (top_words Demo.cat_dog).
Proof.
  exact (proj1 (top_words_agree_with_dictionary
                  Demo.sent_tokenize Demo.word_tokenize Demo.stop_words
                  (Some Demo.model) "cat dog" (PBool true) Demo.cat_dog run_cat_dog)).
Defined.



Lemma result_has_document_embedding_witness :
  exists v c,
    document_embedding Demo.cat_dog = Some v /\ length v = vector_size Demo.model /\
    embedding_coverage Demo.cat_dog = Some c /\ (0 <= c)%Q /\ (c <= 1)%Q.
Proof.
  exact (result_has_document_embedding
           Demo.sent_tokenize Demo.word_tokenize Demo.stop_words (Some Demo.model)
           Demo.model "cat dog" (PBool true) Demo.cat_dog
           demo_model_well_formed eq_refl run_cat_dog).
Defined.


Lemma endpoint_fails_when_embeddings_disabled_witness :
  process_text_endpoint Demo.sent_tokenize Demo.word_tokenize Demo.stop_words
    (Some Demo.model) 0 0 0
    (request "cat dog" [("include_embeddings", PBool false)]) ∅
  = (Failed (UnboundLocalError "embeddings"), clean_expired_cache 0 ∅).
Proof.
  apply (endpoint_fails_when_embeddings_disabled
           Demo.sent_tokenize Demo.word_tokenize Demo.stop_words
           0 0 0 (Some Demo.model) "cat dog" ∅).
  - split; reflexivity.
  - apply lookup_empty.
Defined.
